(** * refclock_javad: a shallow embedding of ntpd/refclock_javad.c

    The driver of the Javad GREIS satellite receiver keeps one
    [struct instance] per unit.  This development embeds the functions
    of the driver that carry its algorithmic content

      - [javad_cksum]       (the 16-bit checksum),
      - [javad_pps]         (PPS edge de-duplication),
      - [javad_receive]     (the line scanner over [ibuf]),
      - [javad_parse_t]     (pulse message, GPS week tracking),
      - [javad_parse_gpos]  (position message, the week anchor),
      - [javad_recv]        (the binary frame reader),

    as functions over a record that mirrors [struct instance], and
    proves properties of them.

    Conventions.  A C integer is a [Z]; every conversion the C code
    performs implicitly is written out ([u_short], [u_int], [to_int],
    [size_t]).  A [char] / byte is a [Z].  Memory outside [ibuf] is not
    modelled: touching it is the outcome [Fault]. *)

From Stdlib Require Import ZArith Lia Bool String.
From stdpp Require Import base list.

Local Open Scope Z_scope.
Set Default Proof Using "Type".

(** ** C integer types *)

(** [(u_short) z] *)
Definition u_short (z : Z) : Z := z mod 2 ^ 16.

(** [(u_int) z], also [u_int32] *)
Definition u_int (z : Z) : Z := z mod 2 ^ 32.

(** [(int) z]: two's complement, 32 bits.  This is also what the
    compilers the driver is built with yield for a left shift of an
    [int] into the sign bit. *)
Definition to_int (z : Z) : Z := (z + 2 ^ 31) mod 2 ^ 32 - 2 ^ 31.

(** [(size_t) z], 64 bits *)
Definition size_t (z : Z) : Z := z mod 2 ^ 64.

(** [(((s) & 0xff) << 8) | (((s) >> 8) & 0xff)] *)
Definition swap_bytes (s : Z) : Z :=
  Z.lor (Z.shiftl (Z.land s 255) 8) (Z.land (Z.shiftr s 8) 255).

Arguments u_short : simpl never.
Arguments u_int : simpl never.
Arguments to_int : simpl never.
Arguments size_t : simpl never.

(** ** Constants of the driver *)

(** Unix timestamp for the GPS epoch: January 6, 1980 *)
Definition GPS_EPOCH : Z := 315964800.

(** One week's worth of seconds *)
Definition WEEKSECS : Z := 7 * 24 * 60 * 60.

(** [sizeof(instance->ibuf)] *)
Definition sizeof_ibuf : nat := 512.

Definition NUL : Z := 0.
Definition CR : Z := 13.
Definition LF : Z := 10.

(** ** Data *)

Record timespec := { tv_sec : Z; tv_nsec : Z }.

Record pps_info_t := {
  assert_sequence : Z;
  clear_sequence : Z;
  assert_timestamp : timespec;
  clear_timestamp : timespec
}.

Record l_fp := { l_ui : Z; l_uf : Z }.

(** [struct instance], with the fields of [peer->procptr] the driver
    writes ([lastrec], and the billboard fields year/day/hour/minute/
    second, kept as the [time_t] they are the breakdown of).  [sbuf] is
    the short buffer [javad_recv] reads; it is a list of bytes here. *)
Record instance := {
  pollcnt : Z;
  polled : Z;
  pps_mode : Z;              (* pps_params.mode *)
  pps_info : pps_info_t;
  pps_handle : Z;
  ts : timespec;
  gpos_gweek : Z;
  gpos_sweek : Z;
  gweek : Z;
  lastsweek : Z;
  timecode : Z;
  stime : Z;
  ibuf : list Z;
  sbuf : list Z;
  ssize : Z;
  lastrec : l_fp;            (* peer->procptr->lastrec *)
  billboard : Z              (* peer->procptr->{year,day,hour,minute,second} *)
}.

Definition set_pps (i : instance) (handle mode : Z) : instance :=
  {| pollcnt := pollcnt i; polled := polled i; pps_mode := mode;
     pps_info := pps_info i; pps_handle := handle; ts := ts i;
     gpos_gweek := gpos_gweek i; gpos_sweek := gpos_sweek i;
     gweek := gweek i; lastsweek := lastsweek i; timecode := timecode i;
     stime := stime i; ibuf := ibuf i; sbuf := sbuf i; ssize := ssize i;
     lastrec := lastrec i; billboard := billboard i |}.

Definition set_pps_info (i : instance) (v : pps_info_t) : instance :=
  {| pollcnt := pollcnt i; polled := polled i; pps_mode := pps_mode i;
     pps_info := v; pps_handle := pps_handle i; ts := ts i;
     gpos_gweek := gpos_gweek i; gpos_sweek := gpos_sweek i;
     gweek := gweek i; lastsweek := lastsweek i; timecode := timecode i;
     stime := stime i; ibuf := ibuf i; sbuf := sbuf i; ssize := ssize i;
     lastrec := lastrec i; billboard := billboard i |}.

Definition set_ts (i : instance) (v : timespec) : instance :=
  {| pollcnt := pollcnt i; polled := polled i; pps_mode := pps_mode i;
     pps_info := pps_info i; pps_handle := pps_handle i; ts := v;
     gpos_gweek := gpos_gweek i; gpos_sweek := gpos_sweek i;
     gweek := gweek i; lastsweek := lastsweek i; timecode := timecode i;
     stime := stime i; ibuf := ibuf i; sbuf := sbuf i; ssize := ssize i;
     lastrec := lastrec i; billboard := billboard i |}.

Definition set_lastrec (i : instance) (v : l_fp) : instance :=
  {| pollcnt := pollcnt i; polled := polled i; pps_mode := pps_mode i;
     pps_info := pps_info i; pps_handle := pps_handle i; ts := ts i;
     gpos_gweek := gpos_gweek i; gpos_sweek := gpos_sweek i;
     gweek := gweek i; lastsweek := lastsweek i; timecode := timecode i;
     stime := stime i; ibuf := ibuf i; sbuf := sbuf i; ssize := ssize i;
     lastrec := v; billboard := billboard i |}.

Definition set_gpos (i : instance) (gw sw : Z) : instance :=
  {| pollcnt := pollcnt i; polled := polled i; pps_mode := pps_mode i;
     pps_info := pps_info i; pps_handle := pps_handle i; ts := ts i;
     gpos_gweek := gw; gpos_sweek := sw;
     gweek := gweek i; lastsweek := lastsweek i; timecode := timecode i;
     stime := stime i; ibuf := ibuf i; sbuf := sbuf i; ssize := ssize i;
     lastrec := lastrec i; billboard := billboard i |}.

Definition set_gweek (i : instance) (v : Z) : instance :=
  {| pollcnt := pollcnt i; polled := polled i; pps_mode := pps_mode i;
     pps_info := pps_info i; pps_handle := pps_handle i; ts := ts i;
     gpos_gweek := gpos_gweek i; gpos_sweek := gpos_sweek i;
     gweek := v; lastsweek := lastsweek i; timecode := timecode i;
     stime := stime i; ibuf := ibuf i; sbuf := sbuf i; ssize := ssize i;
     lastrec := lastrec i; billboard := billboard i |}.

Definition set_lastsweek (i : instance) (v : Z) : instance :=
  {| pollcnt := pollcnt i; polled := polled i; pps_mode := pps_mode i;
     pps_info := pps_info i; pps_handle := pps_handle i; ts := ts i;
     gpos_gweek := gpos_gweek i; gpos_sweek := gpos_sweek i;
     gweek := gweek i; lastsweek := v; timecode := timecode i;
     stime := stime i; ibuf := ibuf i; sbuf := sbuf i; ssize := ssize i;
     lastrec := lastrec i; billboard := billboard i |}.

Definition set_timecode (i : instance) (v : Z) : instance :=
  {| pollcnt := pollcnt i; polled := polled i; pps_mode := pps_mode i;
     pps_info := pps_info i; pps_handle := pps_handle i; ts := ts i;
     gpos_gweek := gpos_gweek i; gpos_sweek := gpos_sweek i;
     gweek := gweek i; lastsweek := lastsweek i; timecode := v;
     stime := stime i; ibuf := ibuf i; sbuf := sbuf i; ssize := ssize i;
     lastrec := lastrec i; billboard := billboard i |}.

Definition set_billboard (i : instance) (v : Z) : instance :=
  {| pollcnt := pollcnt i; polled := polled i; pps_mode := pps_mode i;
     pps_info := pps_info i; pps_handle := pps_handle i; ts := ts i;
     gpos_gweek := gpos_gweek i; gpos_sweek := gpos_sweek i;
     gweek := gweek i; lastsweek := lastsweek i; timecode := timecode i;
     stime := stime i; ibuf := ibuf i; sbuf := sbuf i; ssize := ssize i;
     lastrec := lastrec i; billboard := v |}.

Definition set_ibuf (i : instance) (v : list Z) : instance :=
  {| pollcnt := pollcnt i; polled := polled i; pps_mode := pps_mode i;
     pps_info := pps_info i; pps_handle := pps_handle i; ts := ts i;
     gpos_gweek := gpos_gweek i; gpos_sweek := gpos_sweek i;
     gweek := gweek i; lastsweek := lastsweek i; timecode := timecode i;
     stime := stime i; ibuf := v; sbuf := sbuf i; ssize := ssize i;
     lastrec := lastrec i; billboard := billboard i |}.

Definition set_sbuf (i : instance) (v : list Z) : instance :=
  {| pollcnt := pollcnt i; polled := polled i; pps_mode := pps_mode i;
     pps_info := pps_info i; pps_handle := pps_handle i; ts := ts i;
     gpos_gweek := gpos_gweek i; gpos_sweek := gpos_sweek i;
     gweek := gweek i; lastsweek := lastsweek i; timecode := timecode i;
     stime := stime i; ibuf := ibuf i; sbuf := v; ssize := ssize i;
     lastrec := lastrec i; billboard := billboard i |}.

Definition set_ssize (i : instance) (v : Z) : instance :=
  {| pollcnt := pollcnt i; polled := polled i; pps_mode := pps_mode i;
     pps_info := pps_info i; pps_handle := pps_handle i; ts := ts i;
     gpos_gweek := gpos_gweek i; gpos_sweek := gpos_sweek i;
     gweek := gweek i; lastsweek := lastsweek i; timecode := timecode i;
     stime := stime i; ibuf := ibuf i; sbuf := sbuf i; ssize := v;
     lastrec := lastrec i; billboard := billboard i |}.

(** The zeroed instance [javad_start] allocates with [emalloc_zero]. *)
Definition instance_zero : instance :=
  {| pollcnt := 0; polled := 0; pps_mode := 0;
     pps_info := {| assert_sequence := 0; clear_sequence := 0;
                    assert_timestamp := {| tv_sec := 0; tv_nsec := 0 |};
                    clear_timestamp := {| tv_sec := 0; tv_nsec := 0 |} |};
     pps_handle := 0; ts := {| tv_sec := 0; tv_nsec := 0 |};
     gpos_gweek := 0; gpos_sweek := 0; gweek := 0; lastsweek := 0;
     timecode := 0; stime := 0;
     ibuf := replicate sizeof_ibuf 0; sbuf := []; ssize := 0;
     lastrec := {| l_ui := 0; l_uf := 0 |}; billboard := 0 |}.

(** [javad_config]: the unit variables it initialises.  The three
    [javad_send] calls that follow write to the serial port and leave
    the instance alone. *)
Definition javad_config (i : instance) : instance :=
  {| pollcnt := 2; polled := 0; pps_mode := pps_mode i;
     pps_info := pps_info i; pps_handle := pps_handle i; ts := ts i;
     gpos_gweek := 0; gpos_sweek := 0;
     gweek := 0; lastsweek := 2 * WEEKSECS; timecode := 0;
     stime := 0; ibuf := ibuf i; sbuf := sbuf i; ssize := 0;
     lastrec := lastrec i; billboard := billboard i |}.

(** ** javad_receive *)

(** What a call on [ibuf] comes to: it returns, it touches memory
    outside the 512 bytes of [ibuf] ([Fault]), or it reaches
    [abort()]. *)
Inductive res (A : Type) : Type :=
| Ret (a : A)
| Fault
| Aborted.
Arguments Ret {A} a.
Arguments Fault {A}.
Arguments Aborted {A}.

#[global] Instance res_bind : MBind res := fun A B k m =>
  match m with
  | Ret a => k a
  | Fault => Fault
  | Aborted => Aborted
  end.

(** [buf[i]], read *)
Definition peek (buf : list Z) (i : nat) : res Z :=
  if decide (i < sizeof_ibuf)%nat then
    match buf !! i with
    | Some c => Ret c
    | None => Fault
    end
  else Fault.

(** [buf[i] = c] *)
Definition poke (buf : list Z) (i : nat) (c : Z) : res (list Z) :=
  if decide (i < sizeof_ibuf)%nat then
    match buf !! i with
    | Some _ => Ret (<[i:=c]> buf)
    | None => Fault
    end
  else Fault.

(** [strlcpy(dst + off, src, dsize)]: copy up to [dsize - 1] characters
    of the string [src], stopping at its NUL, and terminate the copy
    with a NUL.  The end of the list [src] ends the string too. *)
Fixpoint strlcpy (dst : list Z) (off : nat) (src : list Z) (dsize : nat)
  : res (list Z) :=
  match dsize with
  | O => Ret dst
  | S n =>
      match n, src with
      | O, _ => poke dst off NUL
      | _, [] => poke dst off NUL
      | _, c :: src' =>
          if c =? NUL then poke dst off NUL
          else dst' ← poke dst off c; strlcpy dst' (S off) src' n
      end
  end.

(** The stores [strlcpy(dst + off, src, dsize)] makes, in order: the
    index into [dst] and the character stored. *)
Fixpoint strlcpy_stores (off : nat) (src : list Z) (dsize : nat)
  : list (nat * Z) :=
  match dsize with
  | O => []
  | S n =>
      match n, src with
      | O, _ => [(off, NUL)]
      | _, [] => [(off, NUL)]
      | _, c :: src' =>
          if c =? NUL then [(off, NUL)]
          else (off, c) :: strlcpy_stores (S off) src' n
      end
  end.

(** A sequence of stores, made one after the other. *)
Fixpoint pokes (buf : list Z) (ws : list (nat * Z)) : res (list Z) :=
  match ws with
  | [] => Ret buf
  | w :: ws' => buf' ← poke buf (fst w) (snd w); pokes buf' ws'
  end.

(** [memcpy(buf + dst, buf + src, n)], copying upwards byte by byte
    (source and destination overlap in the driver's call). *)
Fixpoint memcpy (buf : list Z) (dst src : nat) (n : nat) : res (list Z) :=
  match n with
  | O => Ret buf
  | S n' =>
      c ← peek buf src;
      buf' ← poke buf dst c;
      memcpy buf' (S dst) (S src) n'
  end.

(** The scan for a complete message:
    [while (len >= 2) { if ( *cp++ == CR && *cp == LF) { eol = cp + 1;
    break; } --len; }].  [n] counts the iterations left, [i] is
    [cp - ibuf]; the result is [eol - ibuf]. *)
Fixpoint find_eol (buf : list Z) (n : nat) (i : nat) : res (option nat) :=
  match n with
  | O => Ret None
  | S n' =>
      c ← peek buf i;
      if c =? CR then
        c' ← peek buf (S i);
        if c' =? LF then Ret (Some (S (S i)))
        else find_eol buf n' (S i)
      else find_eol buf n' (S i)
  end.

(** The characters the print loop reads, [buf[i .. i+n)]. *)
Fixpoint peeks (buf : list Z) (i : nat) (n : nat) : res (list Z) :=
  match n with
  | O => Ret []
  | S n' => c ← peek buf i; cs ← peeks buf (S i) n'; Ret (c :: cs)
  end.

(** The first statement of [javad_receive] ("This shouldn't
    happen"): [len], the [recv_length] of the delivery, clamped to
    [sizeof(instance->ibuf) - (instance->ssize - 1)], an unsigned
    [size_t] expression. *)
Definition clamped_len (i : instance) (rbufp : list Z) : Z :=
  let len := Z.of_nat (length rbufp) in
  let room := size_t (Z.of_nat sizeof_ibuf - size_t (ssize i - 1)) in
  if size_t len >? room then to_int room else len.

(** The stores of the append of [javad_receive],
    [strlcpy(instance->ibuf + instance->ssize, cp, len + 1)]. *)
Definition append_stores (i : instance) (rbufp : list Z) : list (nat * Z) :=
  strlcpy_stores (Z.to_nat (ssize i)) rbufp
    (Z.to_nat (size_t (to_int (clamped_len i rbufp + 1)))).

(** [javad_receive] from [instance->ssize += len] on, [buf] being the
    buffer the append left: the scan for a complete message, the
    print, the housekeeping. *)
Definition receive_scan (i : instance) (buf : list Z) (len : Z)
  : res (instance * option (list Z)) :=
  let i := set_ssize (set_ibuf i buf) (to_int (ssize i + len)) in
  (* See if have a complete message *)
  eol ← find_eol (ibuf i) (Z.to_nat (ssize i - 1)) 0;
  match eol with
  | None => Ret (i, None)
  | Some e =>
      let len := Z.of_nat e in
      line ← peeks (ibuf i) 0 e;
      (* Housekeeping *)
      if ssize i =? len then
        buf ← poke (ibuf i) 0 NUL;
        Ret (set_ssize (set_ibuf i buf) 0, Some line)
      else if ssize i >? len then
        (* Shift leftovers *)
        buf ← memcpy (ibuf i) 0 e (Z.to_nat (size_t (to_int (ssize i + 1))));
        Ret (set_ssize (set_ibuf i buf) (to_int (ssize i - len)), Some line)
      else Aborted
  end.

(** [javad_receive]: [rbufp] holds the [recv_length] bytes of the
    delivery.  The result is the instance and the message printed, if
    one was complete. *)
Definition javad_receive (i : instance) (rbufp : list Z)
  : res (instance * option (list Z)) :=
  let len := clamped_len i rbufp in
  (* Append to input buffer *)
  buf ← strlcpy (ibuf i) (Z.to_nat (ssize i)) rbufp
          (Z.to_nat (size_t (to_int (len + 1))));
  receive_scan i buf len.

(** A sequence of deliveries, each handed to [javad_receive] in turn;
    the messages printed are collected in order. *)
Fixpoint javad_receive_all (i : instance) (ds : list (list Z))
  : res (instance * list (list Z)) :=
  match ds with
  | [] => Ret (i, [])
  | d :: ds' =>
      r ← javad_receive i d;
      r' ← javad_receive_all (fst r) ds';
      Ret (fst r', from_option (fun l => [l]) [] (snd r) ++ snd r')
  end.

Definition is_aborted {A : Type} (r : res A) : bool :=
  match r with Aborted => true | _ => false end.

Definition is_fault {A : Type} (r : res A) : bool :=
  match r with Fault => true | _ => false end.

(** The position just after the first CR LF of a byte sequence. *)
Fixpoint find_crlf (bs : list Z) : option nat :=
  match bs with
  | c :: bs' =>
      match bs' with
      | c' :: _ =>
          if (c =? CR) && (c' =? LF) then Some 2%nat
          else S <$> find_crlf bs'
      | [] => None
      end
  | [] => None
  end.

(** The messages a run printed, if it returned. *)
Definition printed (r : res (instance * list (list Z)))
  : option (list (list Z)) :=
  match r with
  | Ret (_, lines) => Some lines
  | _ => None
  end.

(** The buffer holds [p]: [ssize] is its length and it is the first
    [ssize] bytes of [ibuf]. *)
Definition holds (p : list Z) (i : instance) : Prop :=
  length (ibuf i) = sizeof_ibuf
  /\ ssize i = Z.of_nat (length p)
  /\ take (length p) (ibuf i) = p.

(** [ibuf] has its 512 bytes and [ssize] is within the clamp. *)
Definition wf_ibuf (i : instance) : Prop :=
  length (ibuf i) = sizeof_ibuf /\ 0 <= ssize i <= Z.of_nat sizeof_ibuf + 1.

(** At most one CR LF: none after the first. *)
Definition single_line (bs : list Z) : Prop :=
  forall e, find_crlf bs = Some e -> find_crlf (drop e bs) = None.

(** The highest index of [ibuf] that handling [bs], delivered in one
    piece to an empty buffer, touches: the NUL after the bytes, or the
    end of the range the shift of the leftovers reads. *)
Definition reach (bs : list Z) : nat :=
  match find_crlf bs with
  | Some e => if decide (e < length bs)%nat then (e + length bs)%nat else length bs
  | None => length bs
  end.

Section Javad.

(** The byte order of the host ([WORDS_BIGENDIAN]), fixed when the
    driver is compiled. *)
Variable WORDS_BIGENDIAN : bool.

(** ** Byte order *)

(** [getshort(s)]: [((u_short)(s))] on a little-endian host, the two
    bytes swapped on a big-endian one. *)
Definition getshort (s : Z) : Z :=
  if WORDS_BIGENDIAN then swap_bytes s else u_short s.

Definition putshort (s : Z) : Z :=
  if WORDS_BIGENDIAN then swap_bytes s else u_short s.

(** ** javad_cksum *)

(** The loop [while (len-- > 0) { x = *sp++; sum += getshort(x); }] of
    [javad_cksum]: [sp] is the memory at the pointer, as shorts, [sum]
    is a [u_short]. *)
Fixpoint cksum_loop (sp : list Z) (len : nat) (sum : Z) : Z :=
  match len, sp with
  | S len', x :: sp' => cksum_loop sp' len' (u_short (sum + getshort x))
  | _, _ => sum
  end.

(** Checksum "len" shorts: [return (~sum + 1)], as a [u_short]. *)
Definition javad_cksum (sp : list Z) (len : nat) : Z :=
  u_short (Z.lnot (cksum_loop sp len 0) + 1).

(** The arithmetic sum of the byte-order-normalised words. *)
Definition word_sum (ws : list Z) : Z := foldr Z.add 0 (getshort <$> ws).

(** ** javad_pps *)

(** Constants of the PPS API and of ntpd that the driver takes from
    headers: the capture-mode bits of [timepps.h] and the offset
    [JAN_1970] between the Unix and the NTP epochs. *)
Variable PPS_CAPTUREASSERT : Z.
Variable PPS_CAPTURECLEAR : Z.
Variable JAN_1970 : Z.

(** [(u_int32)(ts.tv_nsec * FRAC / 1e9)]: the driver computes the
    fraction in double precision; the computation is a parameter. *)
Variable nsec_to_frac : Z -> Z.

Definition timespec_eqb (a b : timespec) : bool :=
  (tv_sec a =? tv_sec b) && (tv_nsec a =? tv_nsec b).

(** The tail of [javad_pps] once the edge's timestamp [ts] is
    selected: drop a timestamp equal to the last one, else store it and
    hand it to the daemon in [lastrec]. *)
Definition pps_emit (i : instance) (t : timespec) : Z * instance :=
  if timespec_eqb (ts i) t then (1, i)
  else
    let i := set_ts i t in
    let tstmp := {| l_ui := u_int (u_int (tv_sec t) + JAN_1970);
                    l_uf := u_int (nsec_to_frac (tv_nsec t)) |} in
    (0, set_lastrec i tstmp).

(** [javad_pps].  [time_pps_fetch] is the operating system's: [fetch]
    is what one call of it returns and what it leaves in
    [instance->pps_info].  The result is the returned [int] and the
    instance. *)
Definition javad_pps (i : instance) (fetch : Z * pps_info_t)
  : Z * instance :=
  if pps_handle i =? 0 then (1, i)
  else
    let old := pps_info i in
    let i := set_pps_info i (snd fetch) in
    if fst fetch <? 0 then (1, i)
    else if negb (Z.land (pps_mode i) PPS_CAPTUREASSERT =? 0) then
      if assert_sequence old =? assert_sequence (pps_info i) then (1, i)
      else pps_emit i (assert_timestamp (pps_info i))
    else if negb (Z.land (pps_mode i) PPS_CAPTURECLEAR =? 0) then
      if clear_sequence old =? clear_sequence (pps_info i) then (1, i)
      else pps_emit i (clear_timestamp (pps_info i))
    else (1, i).

(** A sequence of polls, each on the instance the one before left:
    the samples handed to the daemon ([lastrec] of the polls that
    return 0), in order. *)
Fixpoint javad_pps_all (i : instance) (fetches : list (Z * pps_info_t))
  : list l_fp :=
  match fetches with
  | [] => []
  | f :: fetches' =>
      let r := javad_pps i f in
      (if fst r =? 0 then [lastrec (snd r)] else [])
        ++ javad_pps_all (snd r) fetches'
  end.

(** ** javad_parse_t and javad_parse_gpos *)

(** The fields of [struct jpulse] and [struct jgpos] the driver reads
    (the structures are declared in a header). *)
Record jpulse := { jp_sweek0 : Z; jp_sweek1 : Z; jp_flags : Z }.
Record jgpos := { jg_navval : Z; jg_gweek : Z; jg_sweek0 : Z; jg_sweek1 : Z }.

(** The bits of [jpulse.flags] the driver tests, from the same header. *)
Variable JAVAD_O_PULSE_VALID : Z.
Variable JAVAD_O_PULSE_UTC : Z.

(** [DS2UI(p)]: [((getshort((p)[1]) << 16) | getshort((p)[0]))].  Both
    operands are promoted to [int], so the value is an [int]. *)
Definition DS2UI (p0 p1 : Z) : Z :=
  Z.lor (to_int (Z.shiftl (getshort p1) 16)) (getshort p0).

(** What [javad_debug] is called with. *)
Inductive debug_msg :=
| DbgNewGpsWeek (gw : Z)
| DbgSweekNotIncrementing (sweek : Z)
| DbgSweekJumped (was now : Z)
| DbgUtcNone (gw sweek : Z)
| DbgUtc (last_timecode gw sweek : Z)
| DbgGps (t gw sweek : Z).

(** What [refclock_report] is called with. *)
Inductive clock_event := CEVNT_BADTIME.

(** A call of a parse function: the instance it leaves, the debug
    messages and the events it reports, in order, and the error string
    it returns ([None] for [NULL]). *)
Record outcome := {
  out_instance : instance;
  out_debug : list debug_msg;
  out_report : list clock_event;
  out_ret : option string
}.

(** [sweek = DS2UI(jp->sweek) % WEEKSECS], stored in a [u_int32]. *)
Definition pulse_sweek (jp : jpulse) : Z :=
  u_int (Z.rem (DS2UI (jp_sweek0 jp) (jp_sweek1 jp)) WEEKSECS).

(** The first statement of [javad_parse_t]: the GPS week after the
    pulse, with the debug message of a new week; [None] when the week
    is unknown and no GPOS message gave one. *)
Definition pulse_gweek (i : instance) (sweek : Z)
  : option (Z * list debug_msg) :=
  if gweek i =? 0 then
    if gpos_gweek i =? 0 then None
    else
      let gw := gpos_gweek i in
      (* Fix warps *)
      if gpos_sweek i >=? sweek then
        if u_int (gpos_sweek i - sweek) >? WEEKSECS / 2
        then Some (u_int (gw + 1), [])
        else Some (gw, [])
      else
        if u_int (sweek - gpos_sweek i) >? WEEKSECS / 2
        then Some (u_int (gw - 1), [])
        else Some (gw, [])
  else if (sweek =? 0) && (lastsweek i =? WEEKSECS - 1) then
    Some (u_int (gweek i + 1), [DbgNewGpsWeek (u_int (gweek i + 1))])
  else Some (gweek i, []).

(** The second statement: the sweek stayed the same, or it warped. *)
Definition pulse_warp (i : instance) (sweek : Z) : list debug_msg :=
  if lastsweek i =? sweek then [DbgSweekNotIncrementing sweek]
  else if negb (lastsweek i =? 2 * WEEKSECS)
          && negb (u_int (lastsweek i + 1) =? sweek)
          && negb ((sweek =? 0) && (lastsweek i =? WEEKSECS - 1))
  then [DbgSweekJumped (lastsweek i) sweek]
  else [].

Definition javad_parse_t (i : instance) (jp : jpulse) : outcome :=
  let sweek := pulse_sweek jp in
  match pulse_gweek i sweek with
  | None =>
      {| out_instance := i; out_debug := []; out_report := [];
         out_ret := Some "javad_parse_t: Unknown gweek"%string |}
  | Some (gw, dbg_week) =>
      let dbg_warp := pulse_warp i sweek in
      let i := set_lastsweek (set_gweek i gw) sweek in
      (* This timecode describes next pulse *)
      let last_timecode := timecode i in
      let i := set_timecode i
                 (u_int (GPS_EPOCH + u_int (gweek i * WEEKSECS) + sweek)) in
      let dbg_utc :=
        if last_timecode =? 0 then [DbgUtcNone (gweek i) sweek]
        else [DbgUtc last_timecode (gweek i) sweek] in
      (* Billboard last_timecode (which is now the current time) *)
      let i := if last_timecode =? 0 then i
               else set_billboard i last_timecode in
      let dbg := dbg_week ++ dbg_warp ++ dbg_utc in
      let flags := getshort (jp_flags jp) in
      (* Toss if not designated "valid" by the gps *)
      if Z.land flags JAVAD_O_PULSE_VALID =? 0 then
        {| out_instance := i; out_debug := dbg;
           out_report := [CEVNT_BADTIME];
           out_ret := Some "time mark not valid"%string |}
      (* We better be sync'ed to UTC... *)
      else if Z.land flags JAVAD_O_PULSE_UTC =? 0 then
        {| out_instance := i; out_debug := dbg;
           out_report := [CEVNT_BADTIME];
           out_ret := Some "time mark not sync'ed to UTC"%string |}
      else
        {| out_instance := i; out_debug := dbg; out_report := [];
           out_ret := None |}
  end.

(** A sequence of pulse messages, each handed to [javad_parse_t] on the
    instance the one before left; the outcomes in order. *)
Fixpoint javad_parse_t_all (i : instance) (jps : list jpulse)
  : list outcome :=
  match jps with
  | [] => []
  | jp :: jps' =>
      let o := javad_parse_t i jp in
      o :: javad_parse_t_all (out_instance o) jps'
  end.

Definition is_jump (d : debug_msg) : bool :=
  match d with DbgSweekJumped _ _ => true | _ => false end.

(** The "gps sweek jumped" messages of an outcome. *)
Definition jumps (o : outcome) : list debug_msg := filter is_jump (out_debug o).

(** The loop [while (gpos_sweek >= WEEKSECS) { gpos_sweek -= WEEKSECS;
    ++gpos_gweek; }] on the two [u_int]s; [n] bounds the iterations. *)
Fixpoint gpos_fold (n : nat) (gw sw : Z) : Z * Z :=
  match n with
  | O => (gw, sw)
  | S n' =>
      if sw >=? WEEKSECS then gpos_fold n' (u_int (gw + 1)) (u_int (sw - WEEKSECS))
      else (gw, sw)
  end.

(** A [u_int] holds fewer than 7102 weeks of seconds. *)
Definition gpos_fold_bound : nat := Z.to_nat 7102.

Definition javad_parse_gpos (i : instance) (jg : jgpos) : outcome :=
  if negb (jg_navval jg =? 0) then
    (* Solution not valid. Use caution and refuse to determine GPS
       week from this message. *)
    {| out_instance := set_gpos i 0 0; out_debug := []; out_report := [];
       out_ret := Some "Navigation solution not valid"%string |}
  else
    let '(gw, sw) :=
      gpos_fold gpos_fold_bound (u_int (jg_gweek jg))
        (u_int (DS2UI (jg_sweek0 jg) (jg_sweek1 jg))) in
    let i := set_gweek (set_gpos i gw sw) 0 in
    let t := u_int (GPS_EPOCH + u_int (gpos_gweek i * WEEKSECS) + gpos_sweek i) in
    {| out_instance := i;
       out_debug := [DbgGps t (gpos_gweek i) (gpos_sweek i)];
       out_report := []; out_ret := None |}.

(** The 32-bit seconds-into-week a pulse message carries. *)
Definition pulse_seconds (jp : jpulse) : Z :=
  getshort (jp_sweek1 jp) * 2 ^ 16 + getshort (jp_sweek0 jp).

(** Successive values each one more than the one before. *)
Definition consecutive (l : list Z) : Prop :=
  forall (k : nat) (a b : Z), l !! k = Some a -> l !! S k = Some b -> b = a + 1.

(** The state a run of consecutive pulses is in before each pulse: it
    drops every pulse, or it has no last sweek, or the pulse is one
    second after the last. *)
Definition in_step (i : instance) (jps : list jpulse) : Prop :=
  match jps with
  | [] => True
  | jp :: _ =>
      (gweek i = 0 /\ gpos_gweek i = 0)
      \/ lastsweek i = 2 * WEEKSECS
      \/ pulse_sweek jp = lastsweek i + 1
  end.

(** ** javad_recv *)

(** The sync short of a binary message, from the header that declares
    [struct jheader]. *)
Variable JAVAD_SYNC : Z.

(** [sizeof(struct jheader)]: six shorts, [sync], [id], [len], [reqid],
    [flags], [hsum], as the initialisers of the driver's request
    messages lay them out. *)
Definition sizeof_jheader : Z := 12.

(** The short the host reads from two consecutive bytes. *)
Definition host_short (b0 b1 : Z) : Z :=
  if WORDS_BIGENDIAN then b0 * 256 + b1 else b0 + 256 * b1.

(** The memory at a byte pointer, read as an array of shorts. *)
Fixpoint shorts (buf : list Z) : list Z :=
  match buf with
  | b0 :: b1 :: rest => host_short b0 b1 :: shorts rest
  | _ => []
  end.

(** [sp[k]] *)
Definition short_at (sp : list Z) (k : nat) : Z := nth k sp 0.

(** The search for the sync short, byte by byte:
    [while (n >= 2) { if (bp[0] != (JAVAD_SYNC & 0xff)) { ++bp; --n;
    continue; } if (bp[1] == ((JAVAD_SYNC >> 8) & 0xff)) break;
    bp += 2; n -= 2; }].  [bp] is the memory at the pointer; the result
    is the pointer and [n] after the loop. *)
Fixpoint sync_scan (fuel : nat) (bp : list Z) (n : Z) : list Z * Z :=
  match fuel with
  | O => (bp, n)
  | S fuel' =>
      if n >=? 2 then
        if negb (nth 0 bp 0 =? Z.land JAVAD_SYNC 255) then
          sync_scan fuel' (drop 1 bp) (n - 1)
        else if nth 1 bp 0 =? Z.land (Z.shiftr JAVAD_SYNC 8) 255 then (bp, n)
        else sync_scan fuel' (drop 2 bp) (n - 2)
      else (bp, n)
  end.

(** The part of [javad_recv] after the sync short is in place: header
    checksum, payload length, payload checksum. *)
Definition recv_checked (i : instance) (size : Z) : Z * instance :=
  let cc := sizeof_jheader in
  let sp := shorts (sbuf i) in
  if negb (javad_cksum sp (Z.to_nat (cc / 2 - 1)) =? getshort (short_at sp 5))
  then
    (* This is drastic but checksum errors should be rare *)
    (0, set_ssize i 0)
  else
    (* Check for a payload *)
    let len := getshort (short_at sp 2) in
    if len >? 0 then
      let n := (len + 1) * 2 in
      (* Not enough data yet *)
      if size <? cc + n then (0, i)
      else
        (* Check payload checksum *)
        let sp := shorts (drop (Z.to_nat sizeof_jheader) (sbuf i)) in
        if negb (javad_cksum sp (Z.to_nat len) =? getshort (short_at sp (Z.to_nat len)))
        then (0, set_ssize i 0)
        else (cc + n, i)
    else (cc, i).

(** [javad_recv]: the size of the next message, or zero if it is not
    all there yet. *)
Definition javad_recv (i : instance) : Z * instance :=
  (* Must have at least a header's worth *)
  let cc := sizeof_jheader in
  let size := ssize i in
  if size <? cc then (0, i)
  else
    (* Search for the sync short if missing *)
    if negb (getshort (short_at (shorts (sbuf i)) 0) =? JAVAD_SYNC) then
      (* Wasn't at the front, sync up *)
      let '(bp, n) := sync_scan (Z.to_nat size) (sbuf i) size in
      (* Shuffle data to front of input buffer *)
      let buf := if n >? 0
                 then take (Z.to_nat n) bp ++ drop (Z.to_nat n) (sbuf i)
                 else sbuf i in
      let size := n in
      let i := set_ssize (set_sbuf i buf) size in
      if (size <? cc) || negb (short_at (shorts (sbuf i)) 0 =? JAVAD_SYNC)
      then (0, i)
      else recv_checked i size
    else recv_checked i size.



(** A sound message lies at the front of [sbuf]: the sync short, a
    header whose checksum holds, [len > 0] payload shorts and the short
    after them that is their checksum, all within the [ssize] bytes
    buffered, which [sbuf] has. *)
Definition message_at_front (i : instance) : Prop :=
  let sp := shorts (sbuf i) in
  let payload := shorts (drop (Z.to_nat sizeof_jheader) (sbuf i)) in
  let L := getshort (short_at sp 2) in
  ssize i <= Z.of_nat (length (sbuf i))
  /\ getshort (short_at sp 0) = JAVAD_SYNC
  /\ javad_cksum sp 5 = getshort (short_at sp 5)
  /\ 0 < L
  /\ sizeof_jheader + (L + 1) * 2 <= ssize i
  /\ javad_cksum payload (Z.to_nat L) = getshort (short_at payload (Z.to_nat L)).

(** Every element is a byte. *)
Definition bytes (buf : list Z) : Prop := Forall (fun b => 0 <= b < 256) buf.

(** The instance keeps time: the week is known, [lastsweek] is within
    the week, and [timecode] is the time of that second of that week. *)
Definition on_time (i : instance) : Prop :=
  0 < gweek i
  /\ 0 <= lastsweek i < WEEKSECS
  /\ timecode i = GPS_EPOCH + gweek i * WEEKSECS + lastsweek i.

(** The 32-bit seconds-into-week a position message carries. *)
Definition gpos_seconds (jg : jgpos) : Z :=
  getshort (jg_sweek1 jg) * 2 ^ 16 + getshort (jg_sweek0 jg).

(** ** javad_ppsapi *)

(** The time-stamp format bit of [timepps.h]. *)
Variable PPS_TSFMT_TSPEC : Z.

(** What the PPS API answers: [time_pps_getcap] its return value and
    the capability it stores, [time_pps_setparams] its return value
    for the mode it is given, [time_pps_kcbind] its return value for
    the edge it is given. *)
Record pps_api := {
  time_pps_getcap : Z * Z;
  time_pps_setparams : Z -> Z;
  time_pps_kcbind : Z -> Z
}.

(** [javad_ppsapi], with [instance->assert] and [instance->hardpps] as
    arguments.  The result is the returned [int], the instance
    ([pps_params] is cleared, then its mode set) and whether
    [hardpps_enable] was set.  Debugging is off. *)
Definition javad_ppsapi (i : instance) (assert hardpps : Z) (os : pps_api)
  : Z * instance * bool :=
  let capability := snd (time_pps_getcap os) in
  if fst (time_pps_getcap os) <? 0 then (0, i, false)
  else
    let mode := if assert =? 0 then Z.land capability PPS_CAPTURECLEAR
                else Z.land capability PPS_CAPTUREASSERT in
    let i := set_pps i (pps_handle i) mode in
    if Z.land (pps_mode i) (Z.lor PPS_CAPTUREASSERT PPS_CAPTURECLEAR) =? 0
    then (0, i, false)
    else
      let i := set_pps i (pps_handle i) (Z.lor (pps_mode i) PPS_TSFMT_TSPEC) in
      if time_pps_setparams os (pps_mode i) <? 0 then (0, i, false)
      else if negb (hardpps =? 0) then
        if time_pps_kcbind os (Z.land (pps_mode i) (Z.lnot PPS_TSFMT_TSPEC)) <? 0
        then (0, i, false)
        else (1, i, true)
      else (1, i, false).

(** ** Concrete inputs

    Values for what the driver takes from headers, used to run the
    functions on concrete inputs: the capture bits of RFC 2783, ntpd's
    [JAN_1970], the exact quotient for the fraction, and the pulse
    flags and the sync short as the Jupiter driver this one derives
    from has them.  The facts stated with them do not depend on the
    choice. *)
Definition le_host : bool := false.
Definition pps_assert_bit : Z := 1.
Definition pps_clear_bit : Z := 2.
Definition jan_1970 : Z := 2208988800.
Definition exact_frac (nsec : Z) : Z := nsec * 2 ^ 32 / 10 ^ 9.
Definition pulse_valid_bit : Z := 1.
Definition pulse_utc_bit : Z := 2.
Definition sync_short : Z := 33279.

(** The instance after [javad_start] and [javad_config]. *)
Definition fresh : instance := javad_config instance_zero.

(** A pulse message with the given seconds into the week and flags. *)
Definition pulse (seconds flags : Z) : jpulse :=
  {| jp_sweek0 := seconds mod 2 ^ 16; jp_sweek1 := seconds / 2 ^ 16;
     jp_flags := flags |}.

(** A binary message in [sbuf]: the header for [len] payload shorts
    with its checksum [hsum], then the given shorts, as the bytes a
    little-endian host reads them from. *)
Definition le_bytes (ws : list Z) : list Z :=
  ws ≫= (fun w => [w mod 256; w / 256]).

Definition message (len hsum : Z) (payload : list Z) : instance :=
  let bytes := le_bytes ([sync_short; 0; len; 0; 0; hsum] ++ payload) in
  set_ssize (set_sbuf fresh bytes) (Z.of_nat (length bytes)).

(** The instance with "ab" buffered, and the same with [ssize] at the
    clamp. *)
Definition buffered_ab : instance :=
  set_ssize (set_ibuf fresh (<[1%nat:=98]> (<[0%nat:=97]> (ibuf fresh)))) 2.

Definition clamped_ab : instance := set_ssize buffered_ab 513.

(** An edge the PPS API reports. *)
Definition edge (seq sec nsec : Z) : pps_info_t :=
  {| assert_sequence := seq; clear_sequence := 0;
     assert_timestamp := {| tv_sec := sec; tv_nsec := nsec |};
     clear_timestamp := {| tv_sec := 0; tv_nsec := 0 |} |}.

(** The format bit of RFC 2783. *)
Definition pps_tsfmt_bit : Z := 4096.

(** A PPS API that answers every call with success and reports the
    capability [cap]. *)
Definition pps_api_ok (cap : Z) : pps_api :=
  {| time_pps_getcap := (0, cap);
     time_pps_setparams := fun _ => 0;
     time_pps_kcbind := fun _ => 0 |}.

(** A fetch with clear edge number [seq] at [sec] seconds and [nsec]
    nanoseconds, and no assert edge. *)
Definition clear_edge (seq sec nsec : Z) : pps_info_t :=
  {| assert_sequence := 0; clear_sequence := seq;
     assert_timestamp := {| tv_sec := 0; tv_nsec := 0 |};
     clear_timestamp := {| tv_sec := sec; tv_nsec := nsec |} |}.

(** The instance at second [sweek] of week [gw]. *)
Definition at_second (gw sweek : Z) : instance :=
  set_timecode (set_lastsweek (set_gweek fresh gw) sweek)
    (GPS_EPOCH + gw * WEEKSECS + sweek).

(** The buffer [bs] in [sbuf], all of it counted. *)
Definition buffered (bs : list Z) : instance :=
  set_ssize (set_sbuf fresh bs) (Z.of_nat (length bs)).

(** * Properties *)

(** ** Integer conversions *)

Lemma u_short_range z : 0 <= u_short z < 2 ^ 16.
Proof. apply Z.mod_pos_bound. lia. Qed.

Lemma u_short_small z : 0 <= z < 2 ^ 16 -> u_short z = z.
Proof. apply Z.mod_small. Qed.

Lemma u_int_range z : 0 <= u_int z < 2 ^ 32.
Proof. apply Z.mod_pos_bound. lia. Qed.

Lemma u_int_small z : 0 <= z < 2 ^ 32 -> u_int z = z.
Proof. apply Z.mod_small. Qed.

Lemma to_int_small z : - 2 ^ 31 <= z < 2 ^ 31 -> to_int z = z.
Proof. intros H. unfold to_int. rewrite Z.mod_small; lia. Qed.

Lemma size_t_small z : 0 <= z < 2 ^ 64 -> size_t z = z.
Proof. apply Z.mod_small. Qed.

Lemma testbit_255 k : 0 <= k -> Z.testbit 255 k = (k <? 8).
Proof.
  intros Hk. change 255 with (Z.ones 8).
  now rewrite Z.testbit_ones_nonneg by lia.
Qed.

Lemma testbit_swap_bytes x n :
  0 <= n ->
  Z.testbit (swap_bytes x) n =
    if n <? 8 then Z.testbit x (n + 8)
    else if n <? 16 then Z.testbit x (n - 8) else false.
Proof.
  intros Hn. unfold swap_bytes.
  rewrite Z.lor_spec, Z.land_spec, Z.shiftr_spec, testbit_255 by lia.
  destruct (Z.ltb_spec n 8).
  - rewrite Z.shiftl_spec_low by lia. simpl. apply andb_true_r.
  - rewrite Z.shiftl_spec, Z.land_spec, testbit_255 by lia.
    rewrite andb_false_r, orb_false_r.
    destruct (Z.ltb_spec n 16), (Z.ltb_spec (n - 8) 8); try lia;
      rewrite ?andb_true_r, ?andb_false_r; reflexivity.
Qed.

Lemma swap_bytes_involutive s : 0 <= s < 2 ^ 16 -> swap_bytes (swap_bytes s) = s.
Proof.
  intros Hs. apply Z.bits_inj'. intros n Hn.
  rewrite testbit_swap_bytes by lia.
  destruct (Z.ltb_spec n 8).
  - rewrite testbit_swap_bytes by lia.
    destruct (Z.ltb_spec (n + 8) 8), (Z.ltb_spec (n + 8) 16); try lia.
    f_equal. lia.
  - destruct (Z.ltb_spec n 16).
    + rewrite testbit_swap_bytes by lia.
      destruct (Z.ltb_spec (n - 8) 8); try lia. f_equal. lia.
    + rewrite <- (Z.mod_small s (2 ^ 16)) by lia.
      symmetry. apply Z.mod_pow2_bits_high. lia.
Qed.

Lemma swap_bytes_range s : 0 <= swap_bytes s < 2 ^ 16.
Proof.
  assert (Hnn : 0 <= swap_bytes s).
  { unfold swap_bytes. apply Z.lor_nonneg. split.
    - apply Z.shiftl_nonneg, Z.land_nonneg. lia.
    - apply Z.land_nonneg. lia. }
  split; [exact Hnn|].
  rewrite <- (Z.mod_small (swap_bytes s) (2 ^ 16)); [apply Z.mod_pos_bound; lia|].
  split; [exact Hnn|].
  destruct (Z.eq_dec (swap_bytes s) 0) as [->|Hne]; [lia|].
  apply Z.log2_lt_cancel. rewrite Z.log2_pow2 by lia.
  destruct (Z.lt_ge_cases (Z.log2 (swap_bytes s)) 16) as [Hlt|Hge]; [exact Hlt|].
  exfalso.
  pose proof (Z.bit_log2 (swap_bytes s) ltac:(lia)) as Hbit.
  rewrite testbit_swap_bytes in Hbit by lia.
  destruct (Z.ltb_spec (Z.log2 (swap_bytes s)) 8); [lia|].
  destruct (Z.ltb_spec (Z.log2 (swap_bytes s)) 16); [lia|discriminate].
Qed.

Lemma getshort_range s : 0 <= getshort s < 2 ^ 16.
Proof.
  unfold getshort. destruct WORDS_BIGENDIAN.
  - apply swap_bytes_range.
  - apply u_short_range.
Qed.

Lemma getshort_putshort s : 0 <= s < 2 ^ 16 -> getshort (putshort s) = s.
Proof.
  intros Hs. unfold getshort, putshort. destruct WORDS_BIGENDIAN.
  - now apply swap_bytes_involutive.
  - rewrite (u_short_small s Hs). exact (u_short_small s Hs).
Qed.

(** ** javad_cksum *)

Lemma u_short_add_l a b : u_short (u_short a + b) = u_short (a + b).
Proof. unfold u_short. apply Zplus_mod_idemp_l. Qed.

Lemma word_sum_app ws vs : word_sum (ws ++ vs) = word_sum ws + word_sum vs.
Proof.
  unfold word_sum. induction ws as [|w ws IH]; csimpl; [reflexivity|].
  rewrite IH. lia.
Qed.

Lemma cksum_loop_word_sum ws s :
  cksum_loop ws (length ws) (u_short s) = u_short (s + word_sum ws).
Proof.
  revert s. induction ws as [|w ws IH]; intros s; csimpl.
  - unfold word_sum. csimpl. f_equal. lia.
  - rewrite IH, <- Z.add_assoc, u_short_add_l. reflexivity.
Qed.

Lemma javad_cksum_word_sum ws :
  javad_cksum ws (length ws) = (- word_sum ws) mod 2 ^ 16.
Proof.
  unfold javad_cksum.
  change 0 with (u_short 0) at 1. rewrite cksum_loop_word_sum.
  rewrite Z.add_0_l.
  replace (Z.lnot (u_short (word_sum ws)) + 1)
    with (0 - u_short (word_sum ws)) by (unfold Z.lnot; lia).
  unfold u_short. rewrite Zminus_mod_idemp_r. reflexivity.
Qed.

(** C2.  For every sequence of 16-bit words, [javad_cksum] over the
    sequence is the two's-complement negation, modulo 2^16, of the
    arithmetic sum of the words after [getshort]; and the checksum over
    the sequence followed by its own checksum word (stored with
    [putshort], as the driver stores every short of a message) is 0. *)
Theorem javad_cksum_negated_sum (ws : list Z) :
  javad_cksum ws (length ws) = (- word_sum ws) mod 2 ^ 16 /\
  let ck := javad_cksum ws (length ws) in
  javad_cksum (ws ++ [putshort ck]) (length (ws ++ [putshort ck])) = 0.
Proof.
  split; [apply javad_cksum_word_sum|].
  cbv zeta. rewrite !javad_cksum_word_sum, word_sum_app.
  unfold word_sum at 2. csimpl.
  rewrite getshort_putshort by (apply Z.mod_pos_bound; lia).
  rewrite Z.add_0_r.
  replace (- (word_sum ws + (- word_sum ws) mod 2 ^ 16))
    with (- word_sum ws - (- word_sum ws) mod 2 ^ 16) by lia.
  rewrite Zminus_mod_idemp_r, Z.sub_diag. reflexivity.
Qed.


(** ** javad_pps *)

Lemma timespec_eqb_eq a b : timespec_eqb a b = true <-> a = b.
Proof.
  destruct a as [s1 n1], b as [s2 n2]. unfold timespec_eqb. simpl.
  rewrite andb_true_iff, !Z.eqb_eq. split.
  - intros [-> ->]. reflexivity.
  - intros [= -> ->]. split; reflexivity.
Qed.

Lemma pps_emit_same i t :
  t = ts i -> pps_emit i t = (1, i).
Proof.
  intros ->. unfold pps_emit.
  now rewrite (proj2 (timespec_eqb_eq (ts i) (ts i)) eq_refl).
Qed.

Lemma pps_emit_new i t :
  t <> ts i ->
  pps_emit i t =
    (0, set_lastrec (set_ts i t)
          {| l_ui := u_int (u_int (tv_sec t) + JAN_1970);
             l_uf := u_int (nsec_to_frac (tv_nsec t)) |}).
Proof.
  intros Hne. unfold pps_emit.
  destruct (timespec_eqb (ts i) t) eqn:E; [|reflexivity].
  apply timespec_eqb_eq in E. congruence.
Qed.

(** Every return of [javad_pps] with 1 leaves [lastrec] and [ts]
    alone. *)
Lemma javad_pps_quiet i f :
  fst (javad_pps i f) = 1 ->
  lastrec (snd (javad_pps i f)) = lastrec i /\ ts (snd (javad_pps i f)) = ts i.
Proof.
  unfold javad_pps, pps_emit.
  repeat match goal with
         | |- context [if ?b then _ else _] => destruct b
         end; simpl; intros; try discriminate; auto.
Qed.

(** C8.  For every poll: when the selected edge (the assert edge if
    the mode has [PPS_CAPTUREASSERT], else the clear edge if it has
    [PPS_CAPTURECLEAR]) has the sequence number of the last observation,
    or its timestamp is the last emitted one, [javad_pps] returns 1 (no
    new edge) and leaves [lastrec] and [ts] as they were.  Hence a new
    assert edge fetched twice is emitted exactly once: the first poll
    emits it, the second emits nothing. *)
Theorem javad_pps_dedup (i : instance) (rc : Z) (info : pps_info_t) :
  (Z.land (pps_mode i) PPS_CAPTUREASSERT <> 0 ->
   assert_sequence info = assert_sequence (pps_info i)
     \/ assert_timestamp info = ts i ->
   fst (javad_pps i (rc, info)) = 1
   /\ lastrec (snd (javad_pps i (rc, info))) = lastrec i
   /\ ts (snd (javad_pps i (rc, info))) = ts i)
  /\
  (Z.land (pps_mode i) PPS_CAPTUREASSERT = 0 ->
   Z.land (pps_mode i) PPS_CAPTURECLEAR <> 0 ->
   clear_sequence info = clear_sequence (pps_info i)
     \/ clear_timestamp info = ts i ->
   fst (javad_pps i (rc, info)) = 1
   /\ lastrec (snd (javad_pps i (rc, info))) = lastrec i
   /\ ts (snd (javad_pps i (rc, info))) = ts i)
  /\
  (pps_handle i <> 0 -> 0 <= rc ->
   Z.land (pps_mode i) PPS_CAPTUREASSERT <> 0 ->
   assert_sequence info <> assert_sequence (pps_info i) ->
   assert_timestamp info <> ts i ->
   javad_pps_all i [(rc, info); (rc, info)] =
     [ {| l_ui := u_int (u_int (tv_sec (assert_timestamp info)) + JAN_1970);
          l_uf := u_int (nsec_to_frac (tv_nsec (assert_timestamp info))) |} ]).
Proof.
  assert (Hquiet : fst (javad_pps i (rc, info)) = 1 ->
            fst (javad_pps i (rc, info)) = 1
            /\ lastrec (snd (javad_pps i (rc, info))) = lastrec i
            /\ ts (snd (javad_pps i (rc, info))) = ts i).
  { intros H. split; [exact H|]. now apply javad_pps_quiet. }
  split; [|split].
  - intros Hmode Hsame. apply Hquiet. unfold javad_pps. simpl.
    destruct (pps_handle i =? 0); [reflexivity|].
    destruct (rc <? 0); [reflexivity|].
    apply Z.eqb_neq in Hmode. rewrite Hmode. simpl.
    destruct (Z.eqb_spec (assert_sequence (pps_info i)) (assert_sequence info))
      as [_|Hseq]; [reflexivity|].
    destruct Hsame as [Hs|Ht]; [congruence|].
    now rewrite pps_emit_same.
  - intros Hmode Hclear Hsame. apply Hquiet. unfold javad_pps. simpl.
    destruct (pps_handle i =? 0); [reflexivity|].
    destruct (rc <? 0); [reflexivity|].
    apply Z.eqb_eq in Hmode. rewrite Hmode. simpl.
    apply Z.eqb_neq in Hclear. rewrite Hclear. simpl.
    destruct (Z.eqb_spec (clear_sequence (pps_info i)) (clear_sequence info))
      as [_|Hseq]; [reflexivity|].
    destruct Hsame as [Hs|Ht]; [congruence|].
    now rewrite pps_emit_same.
  - intros Hh Hrc Hmode Hseq Hts.
    apply Z.eqb_neq in Hh, Hmode. apply Z.ltb_ge in Hrc.
    assert (Hseq' : (assert_sequence (pps_info i) =? assert_sequence info) = false)
      by (apply Z.eqb_neq; congruence).
    assert (E1 : javad_pps i (rc, info) =
       (0, set_lastrec (set_ts (set_pps_info i info) (assert_timestamp info))
             {| l_ui := u_int (u_int (tv_sec (assert_timestamp info)) + JAN_1970);
                l_uf := u_int (nsec_to_frac (tv_nsec (assert_timestamp info))) |})).
    { unfold javad_pps. simpl. rewrite Hh, Hrc, Hmode. simpl. rewrite Hseq'.
      now apply pps_emit_new. }
    unfold javad_pps_all. rewrite E1. simpl fst. simpl snd.
    change (0 =? 0) with true. cbv iota.
    assert (E2 : fst (javad_pps
       (set_lastrec (set_ts (set_pps_info i info) (assert_timestamp info))
             {| l_ui := u_int (u_int (tv_sec (assert_timestamp info)) + JAN_1970);
                l_uf := u_int (nsec_to_frac (tv_nsec (assert_timestamp info))) |})
       (rc, info)) = 1).
    { unfold javad_pps. simpl. rewrite Hh, Hrc, Hmode. simpl.
      now rewrite Z.eqb_refl. }
    rewrite E2. reflexivity.
Qed.


(** ** javad_parse_t *)

Lemma land_mul_pow2_16 m b : 0 <= b < 2 ^ 16 -> Z.land (m * 2 ^ 16) b = 0.
Proof.
  intros Hb. apply Z.bits_inj'. intros n Hn.
  rewrite Z.land_spec, Z.bits_0.
  destruct (Z.lt_ge_cases n 16).
  - rewrite Z.mul_pow2_bits_low by lia. reflexivity.
  - rewrite <- (Z.mod_small b (2 ^ 16)) by lia.
    rewrite Z.mod_pow2_bits_high by lia. apply andb_false_r.
Qed.

Lemma lor_mul_pow2_16 m b : 0 <= b < 2 ^ 16 -> Z.lor (m * 2 ^ 16) b = m * 2 ^ 16 + b.
Proof.
  intros Hb. rewrite <- Z.add_lor_land, land_mul_pow2_16 by lia. lia.
Qed.

(** [DS2UI] of a value below 2^31 is that value. *)
Lemma DS2UI_low p0 p1 :
  getshort p1 < 2 ^ 15 -> DS2UI p0 p1 = getshort p1 * 2 ^ 16 + getshort p0.
Proof.
  intros H. pose proof (getshort_range p0). pose proof (getshort_range p1).
  unfold DS2UI. rewrite Z.shiftl_mul_pow2 by lia.
  rewrite to_int_small by lia. apply lor_mul_pow2_16. lia.
Qed.

(** Converted to [u_int], [DS2UI] is the 32-bit value of the two shorts. *)
Lemma DS2UI_u_int p0 p1 :
  u_int (DS2UI p0 p1) = getshort p1 * 2 ^ 16 + getshort p0.
Proof.
  pose proof (getshort_range p0). pose proof (getshort_range p1).
  unfold DS2UI. rewrite Z.shiftl_mul_pow2 by lia.
  destruct (Z.lt_ge_cases (getshort p1) (2 ^ 15)).
  - rewrite to_int_small by lia. rewrite lor_mul_pow2_16 by lia.
    apply u_int_small. lia.
  - assert (E : to_int (getshort p1 * 2 ^ 16) = (getshort p1 - 2 ^ 16) * 2 ^ 16).
    { unfold to_int.
      replace (getshort p1 * 2 ^ 16 + 2 ^ 31)
        with (getshort p1 * 2 ^ 16 - 2 ^ 31 + 1 * 2 ^ 32) by lia.
      rewrite Z.mod_add, Z.mod_small by lia. lia. }
    rewrite E, lor_mul_pow2_16 by lia. unfold u_int.
    replace ((getshort p1 - 2 ^ 16) * 2 ^ 16 + getshort p0)
      with (getshort p1 * 2 ^ 16 + getshort p0 + (-1) * 2 ^ 32) by lia.
    rewrite Z.mod_add, Z.mod_small by lia. reflexivity.
Qed.

Lemma pulse_sweek_range jp : 0 <= pulse_sweek jp < 2 ^ 32.
Proof. apply u_int_range. Qed.

(** For a pulse whose seconds are below 2^31, [sweek] is the seconds
    modulo [WEEKSECS]. *)
Lemma pulse_sweek_low jp :
  getshort (jp_sweek1 jp) < 2 ^ 15 ->
  pulse_sweek jp = pulse_seconds jp mod WEEKSECS.
Proof.
  intros H. unfold pulse_sweek, pulse_seconds.
  pose proof (getshort_range (jp_sweek0 jp)).
  pose proof (getshort_range (jp_sweek1 jp)).
  rewrite DS2UI_low by assumption.
  rewrite Z.rem_mod_nonneg by (unfold WEEKSECS; lia).
  apply u_int_small.
  pose proof (Z.mod_pos_bound
                (getshort (jp_sweek1 jp) * 2 ^ 16 + getshort (jp_sweek0 jp))
                WEEKSECS ltac:(unfold WEEKSECS; lia)).
  unfold WEEKSECS in *. lia.
Qed.

Lemma pulse_gweek_no_jump i sweek gw dbg :
  pulse_gweek i sweek = Some (gw, dbg) -> filter is_jump dbg = [].
Proof.
  unfold pulse_gweek.
  repeat match goal with
         | |- context [if ?b then _ else _] => destruct b
         end; intros [= <- <-]; reflexivity.
Qed.

Lemma pulse_gweek_dropped i sweek :
  pulse_gweek i sweek = None <-> gweek i = 0 /\ gpos_gweek i = 0.
Proof.
  unfold pulse_gweek.
  destruct (Z.eqb_spec (gweek i) 0) as [Hg|Hg];
    [destruct (Z.eqb_spec (gpos_gweek i) 0) as [Hp|Hp]|].
  - split; [intros _; split; assumption|reflexivity].
  - split; [|intros [_ H]; contradiction].
    repeat match goal with
           | |- context [if ?b then _ else _] => destruct b
           end; discriminate.
  - split; [|intros [H _]; contradiction].
    repeat match goal with
           | |- context [if ?b then _ else _] => destruct b
           end; discriminate.
Qed.

(** A pulse that finds the week unknown and no anchor is dropped at
    once: nothing is logged, reported or stored. *)
Lemma javad_parse_t_dropped i jp :
  gweek i = 0 -> gpos_gweek i = 0 ->
  javad_parse_t i jp =
    {| out_instance := i; out_debug := []; out_report := [];
       out_ret := Some "javad_parse_t: Unknown gweek"%string |}.
Proof.
  intros Hg Hp. unfold javad_parse_t.
  now rewrite (proj2 (pulse_gweek_dropped i (pulse_sweek jp)) (conj Hg Hp)).
Qed.

(** What a pulse that is not dropped leaves behind. *)
Lemma javad_parse_t_processed i jp gw dbg :
  pulse_gweek i (pulse_sweek jp) = Some (gw, dbg) ->
  let o := javad_parse_t i jp in
  gweek (out_instance o) = gw
  /\ lastsweek (out_instance o) = pulse_sweek jp
  /\ timecode (out_instance o)
     = u_int (GPS_EPOCH + u_int (gw * WEEKSECS) + pulse_sweek jp)
  /\ gpos_gweek (out_instance o) = gpos_gweek i
  /\ gpos_sweek (out_instance o) = gpos_sweek i
  /\ jumps o = filter is_jump (pulse_warp i (pulse_sweek jp)).
Proof.
  intros E. cbv zeta. unfold javad_parse_t, jumps. rewrite E.
  pose proof (pulse_gweek_no_jump _ _ _ _ E) as Hnj.
  assert (Hj : forall a b c : Z,
             filter is_jump (dbg ++ pulse_warp i (pulse_sweek jp)
                               ++ (if a =? 0 then [DbgUtcNone b c]
                                   else [DbgUtc a b c]))
             = filter is_jump (pulse_warp i (pulse_sweek jp))).
  { intros a b c. rewrite !filter_app, Hnj.
    destruct (a =? 0); simpl; now rewrite app_nil_r. }
  repeat match goal with
         | |- context [if Z.land ?a ?b =? 0 then _ else _] =>
             destruct (Z.land a b =? 0)
         end; simpl out_instance; simpl out_debug; rewrite Hj;
    destruct (timecode i =? 0); simpl; repeat split; reflexivity.
Qed.


Lemma pulse_gweek_some i sweek :
  gweek i <> 0 \/ gpos_gweek i <> 0 ->
  exists gw dbg, pulse_gweek i sweek = Some (gw, dbg).
Proof.
  intros H. destruct (pulse_gweek i sweek) as [[gw dbg]|] eqn:E.
  - now exists gw, dbg.
  - apply pulse_gweek_dropped in E. lia.
Qed.

(** The week an anchored pulse resolves to. *)
Lemma pulse_gweek_anchor i s :
  gweek i = 0 -> gpos_gweek i <> 0 ->
  0 <= gpos_sweek i < 2 ^ 32 -> 0 <= s < 2 ^ 32 ->
  pulse_gweek i s =
    Some (if (gpos_sweek i >=? s) && (gpos_sweek i - s >? WEEKSECS / 2)
          then u_int (gpos_gweek i + 1)
          else if (s >? gpos_sweek i) && (s - gpos_sweek i >? WEEKSECS / 2)
          then u_int (gpos_gweek i - 1)
          else gpos_gweek i, []).
Proof.
  intros Hg Hp Ha Hs. unfold pulse_gweek.
  apply Z.eqb_eq in Hg. apply Z.eqb_neq in Hp. rewrite Hg, Hp.
  rewrite !Z.geb_leb, !Z.gtb_ltb.
  destruct (Z.leb_spec s (gpos_sweek i)).
  - rewrite u_int_small by lia. simpl.
    destruct (WEEKSECS / 2 <? gpos_sweek i - s); [reflexivity|].
    destruct (Z.ltb_spec (gpos_sweek i) s); [lia|]. reflexivity.
  - rewrite u_int_small by lia. simpl.
    destruct (Z.ltb_spec (gpos_sweek i) s); [|lia]. simpl.
    destruct (WEEKSECS / 2 <? s - gpos_sweek i); reflexivity.
Qed.

(** With the week unknown and a position anchor established, a pulse
    whose seconds-into-week field is below 2^31 gives
    [s = seconds mod WEEKSECS] and sets [gweek] to [gpos_gweek],
    incremented when [gpos_sweek >= s] and [gpos_sweek - s] exceeds
    half a week, decremented when [s > gpos_sweek] and [s - gpos_sweek]
    exceeds half a week; an anchor at [WEEKSECS - 10] with [s = 5]
    resolves to [gpos_gweek + 1]. *)
Theorem javad_parse_t_anchor_week (i : instance) (jp : jpulse) :
  gweek i = 0 -> gpos_gweek i <> 0 -> 0 <= gpos_sweek i < 2 ^ 32 ->
  getshort (jp_sweek1 jp) < 2 ^ 15 ->
  let s := pulse_seconds jp mod WEEKSECS in
  pulse_sweek jp = s
  /\ gweek (out_instance (javad_parse_t i jp)) =
       (if (gpos_sweek i >=? s) && (gpos_sweek i - s >? WEEKSECS / 2)
        then u_int (gpos_gweek i + 1)
        else if (s >? gpos_sweek i) && (s - gpos_sweek i >? WEEKSECS / 2)
        then u_int (gpos_gweek i - 1)
        else gpos_gweek i)
  /\ (gpos_sweek i = WEEKSECS - 10 -> s = 5 ->
      gweek (out_instance (javad_parse_t i jp)) = u_int (gpos_gweek i + 1)).
Proof.
  intros Hg Hp Ha Hlow s.
  assert (Hs : pulse_sweek jp = s) by now apply pulse_sweek_low.
  pose proof (pulse_sweek_range jp) as Hr.
  pose proof (pulse_gweek_anchor i (pulse_sweek jp) Hg Hp Ha Hr) as E.
  destruct (javad_parse_t_processed i jp _ _ E) as (Hgw & _).
  rewrite Hs in Hgw.
  split; [exact Hs|]. split; [exact Hgw|].
  intros Hanchor H5. rewrite Hgw, Hanchor, H5. reflexivity.
Qed.

(** C3 (as the code has it).  A pulse whose valid flag or whose
    synced-to-UTC flag is clear, arriving when the week is known or an
    anchor is established, is rejected with one bad-time event; by then
    [javad_parse_t] has stored the time reconstructed from it in
    [timecode] (and its seconds in [lastsweek]). *)
Theorem javad_parse_t_bad_time (i : instance) (jp : jpulse) :
  Z.land (getshort (jp_flags jp)) JAVAD_O_PULSE_VALID = 0
    \/ Z.land (getshort (jp_flags jp)) JAVAD_O_PULSE_UTC = 0 ->
  gweek i <> 0 \/ gpos_gweek i <> 0 ->
  let o := javad_parse_t i jp in
  out_report o = [CEVNT_BADTIME]
  /\ (out_ret o = Some "time mark not valid"%string
      \/ out_ret o = Some "time mark not sync'ed to UTC"%string)
  /\ lastsweek (out_instance o) = pulse_sweek jp
  /\ timecode (out_instance o)
     = u_int (GPS_EPOCH + u_int (gweek (out_instance o) * WEEKSECS)
              + pulse_sweek jp).
Proof.
  intros Hflags Hweek o.
  destruct (pulse_gweek_some i (pulse_sweek jp) Hweek) as (gw & dbg & E).
  destruct (javad_parse_t_processed i jp gw dbg E) as (Hgw & Hls & Htc & _).
  fold o in Hgw, Hls, Htc. rewrite Hgw.
  assert (Hrep : out_report o = [CEVNT_BADTIME]
                 /\ (out_ret o = Some "time mark not valid"%string
                     \/ out_ret o = Some "time mark not sync'ed to UTC"%string)).
  { unfold o, javad_parse_t. rewrite E.
    destruct (Z.eqb_spec (Z.land (getshort (jp_flags jp)) JAVAD_O_PULSE_VALID) 0)
      as [_|Hv]; [simpl; auto|].
    destruct (Z.eqb_spec (Z.land (getshort (jp_flags jp)) JAVAD_O_PULSE_UTC) 0)
      as [_|Hu]; [simpl; auto|].
    destruct Hflags; contradiction. }
  destruct Hrep as [Hr1 Hr2]. auto.
Qed.

(** ** javad_parse_gpos *)

(** C4 (as the code has it).  A position message whose solution is not
    valid sets [gpos_gweek] and [gpos_sweek] to 0 and returns; every
    other field, [gweek] among them, is left as it was. *)
Theorem javad_parse_gpos_invalid (i : instance) (jg : jgpos) :
  jg_navval jg <> 0 ->
  javad_parse_gpos i jg =
    {| out_instance := set_gpos i 0 0; out_debug := []; out_report := [];
       out_ret := Some "Navigation solution not valid"%string |}
  /\ gpos_gweek (out_instance (javad_parse_gpos i jg)) = 0
  /\ gpos_sweek (out_instance (javad_parse_gpos i jg)) = 0
  /\ gweek (out_instance (javad_parse_gpos i jg)) = gweek i.
Proof.
  intros Hnav. unfold javad_parse_gpos.
  apply Z.eqb_neq in Hnav. rewrite Hnav. simpl. auto.
Qed.

(** The normalising loop: within [gpos_fold_bound] iterations it has
    carried the whole weeks of [sw] into [gw]. *)
Lemma gpos_fold_div_mod : forall (n : nat) (gw sw : Z),
  0 <= gw -> 0 <= sw < 2 ^ 32 ->
  sw / WEEKSECS < Z.of_nat n -> gw + sw / WEEKSECS < 2 ^ 32 ->
  gpos_fold n gw sw = (gw + sw / WEEKSECS, sw mod WEEKSECS).
Proof.
  induction n as [|n IH]; intros gw sw Hgw Hsw Hn Hfit.
  - exfalso. assert (0 <= sw / WEEKSECS) by (apply Z.div_pos; unfold WEEKSECS; lia).
    lia.
  - simpl. rewrite Z.geb_leb. destruct (Z.leb_spec WEEKSECS sw) as [Hge|Hlt].
    + assert (Hq : (sw - WEEKSECS) / WEEKSECS = sw / WEEKSECS - 1).
      { replace (sw - WEEKSECS) with (sw + (-1) * WEEKSECS) by lia.
        rewrite Z.div_add by (unfold WEEKSECS; lia). lia. }
      assert (Hr : (sw - WEEKSECS) mod WEEKSECS = sw mod WEEKSECS).
      { replace (sw - WEEKSECS) with (sw + (-1) * WEEKSECS) by lia.
        apply Z.mod_add. unfold WEEKSECS. lia. }
      assert (1 <= sw / WEEKSECS)
        by (apply Z.div_le_lower_bound; unfold WEEKSECS in *; lia).
      rewrite (u_int_small (gw + 1)), (u_int_small (sw - WEEKSECS))
        by (unfold WEEKSECS in *; lia).
      rewrite IH by (unfold WEEKSECS in *; lia).
      rewrite Hq, Hr. f_equal. lia.
    + rewrite Z.div_small, Z.mod_small by (unfold WEEKSECS in *; lia).
      f_equal. lia.
Qed.

(** A position message with a valid solution: the seconds are folded
    into [0, WEEKSECS), the whole weeks carried into the week; the
    result is the anchor, and [gweek] is reset to unknown. *)
Theorem javad_parse_gpos_valid (i : instance) (jg : jgpos) :
  jg_navval jg = 0 ->
  0 <= jg_gweek jg < 2 ^ 16 ->
  let seconds := getshort (jg_sweek1 jg) * 2 ^ 16 + getshort (jg_sweek0 jg) in
  let o := javad_parse_gpos i jg in
  gpos_gweek (out_instance o) = jg_gweek jg + seconds / WEEKSECS
  /\ gpos_sweek (out_instance o) = seconds mod WEEKSECS
  /\ 0 <= gpos_sweek (out_instance o) < WEEKSECS
  /\ gweek (out_instance o) = 0
  /\ out_ret o = None.
Proof.
  intros Hnav Hgw seconds o.
  pose proof (getshort_range (jg_sweek0 jg)) as H0.
  pose proof (getshort_range (jg_sweek1 jg)) as H1.
  assert (Hs : 0 <= seconds < 2 ^ 32) by (unfold seconds; lia).
  assert (Hq : 0 <= seconds / WEEKSECS < 7102).
  { split; [apply Z.div_pos; unfold WEEKSECS; lia|].
    apply Z.div_lt_upper_bound; unfold WEEKSECS; lia. }
  unfold o, javad_parse_gpos. rewrite Hnav. simpl negb. cbv iota.
  rewrite DS2UI_u_int. fold seconds.
  rewrite (u_int_small (jg_gweek jg)) by lia.
  rewrite gpos_fold_div_mod
    by (unfold gpos_fold_bound; rewrite ?Z2Nat.id; lia).
  simpl.
  pose proof (Z.mod_pos_bound seconds WEEKSECS ltac:(unfold WEEKSECS; lia)).
  repeat split; try reflexivity; lia.
Qed.

(** ** Warp detection *)

Lemma pulse_warp_quiet i s :
  0 <= s < 2 ^ 32 ->
  lastsweek i = 2 * WEEKSECS \/ s = lastsweek i + 1 ->
  filter is_jump (pulse_warp i s) = [].
Proof.
  intros Hs H. unfold pulse_warp.
  destruct (lastsweek i =? s); [reflexivity|].
  destruct H as [H|H].
  - rewrite H, Z.eqb_refl. reflexivity.
  - rewrite <- H, u_int_small, Z.eqb_refl by lia.
    now rewrite andb_false_r.
Qed.

Lemma consecutive_tail a l : consecutive (a :: l) -> consecutive l.
Proof. intros H k x y Hx Hy. exact (H (S k) x y Hx Hy). Qed.

Lemma javad_parse_t_all_no_jump jps :
  forall i,
    consecutive (pulse_sweek <$> jps) -> in_step i jps ->
    Forall (fun o => jumps o = []) (javad_parse_t_all i jps).
Proof.
  induction jps as [|jp jps IH]; intros i Hc Hin; simpl; [constructor|].
  pose proof (pulse_sweek_range jp) as Hr.
  destruct (pulse_gweek i (pulse_sweek jp)) as [[gw dbg]|] eqn:E.
  - destruct (javad_parse_t_processed i jp gw dbg E)
      as (_ & Hls & _ & _ & _ & Hj).
    constructor.
    + rewrite Hj. apply pulse_warp_quiet; [exact Hr|].
      destruct Hin as [[Hg Hp]|[H|H]]; [|auto|auto].
      assert (pulse_gweek i (pulse_sweek jp) = None)
        by now apply pulse_gweek_dropped.
      congruence.
    + apply IH; [exact (consecutive_tail _ _ Hc)|].
      destruct jps as [|jp' jps]; [exact I|]. simpl.
      right. right. rewrite Hls. exact (Hc 0%nat _ _ eq_refl eq_refl).
  - apply pulse_gweek_dropped in E. destruct E as [Hg Hp].
    rewrite (javad_parse_t_dropped i jp Hg Hp).
    constructor; [reflexivity|]. simpl.
    apply IH; [exact (consecutive_tail _ _ Hc)|].
    destruct jps as [|jp' jps]; [exact I|]. simpl. auto.
Qed.

(** The week and the time a pulse leaves do not depend on [lastsweek]
    but through the test for the wrap into a new week. *)
Lemma pulse_gweek_lastsweek i i' s :
  gweek i = gweek i' -> gpos_gweek i = gpos_gweek i' ->
  gpos_sweek i = gpos_sweek i' ->
  (lastsweek i =? WEEKSECS - 1) = (lastsweek i' =? WEEKSECS - 1) ->
  pulse_gweek i s = pulse_gweek i' s.
Proof.
  intros Hg Hp Hs Hl. unfold pulse_gweek. now rewrite Hg, Hp, Hs, Hl.
Qed.

(** A jump is logged by a pulse that is not dropped exactly when the
    warp test says so. *)
Lemma javad_parse_t_jumps i jp :
  gweek i <> 0 \/ gpos_gweek i <> 0 ->
  jumps (javad_parse_t i jp) = filter is_jump (pulse_warp i (pulse_sweek jp))
  /\ lastsweek (out_instance (javad_parse_t i jp)) = pulse_sweek jp
  /\ (pulse_sweek jp <> 0 ->
      gweek (out_instance (javad_parse_t i jp)) <> 0
      \/ gpos_gweek (out_instance (javad_parse_t i jp)) <> 0).
Proof.
  intros Hweek.
  destruct (pulse_gweek_some i (pulse_sweek jp) Hweek) as (gw & dbg & E).
  destruct (javad_parse_t_processed i jp gw dbg E)
    as (Hgw & Hls & _ & Hp & _ & Hj).
  split; [exact Hj|]. split; [exact Hls|].
  intros Hnz. rewrite Hgw, Hp.
  destruct (Z.eq_dec (gpos_gweek i) 0) as [Hp0|]; [|auto].
  left. destruct Hweek as [Hg|]; [|contradiction].
  revert E. unfold pulse_gweek.
  apply Z.eqb_neq in Hg, Hnz. rewrite Hg, Hnz. simpl.
  intros [= <- _]. now apply Z.eqb_neq.
Qed.

(** C9 (as the code has it).  A run of pulses whose [sweek] values each
    increase by exactly 1, started with no last sweek stored or one
    second after the last sweek stored, logs no "gps sweek jumped".
    The run 10, 11, 50, with the week known or an anchor established,
    logs none at the pulse with 11 and one at the pulse with 50; at
    the pulse with 10 it logs one exactly when a last sweek other than
    9 and 10 is stored.  So the run logs exactly one, at the pulse
    with 50, when it starts with no last sweek stored or follows
    second 9 or 10, and two otherwise.  The week and the time a pulse
    leaves are the same whatever last sweek the instance held, the
    test for the wrap into a new week apart: the warp and stall
    messages change neither. *)
Theorem javad_parse_t_warp (i : instance) :
  (forall jps : list jpulse,
      in_step i jps ->
      consecutive (pulse_sweek <$> jps) ->
      Forall (fun o => jumps o = []) (javad_parse_t_all i jps))
  /\ (forall a b c : jpulse,
      0 <= lastsweek i < 2 ^ 32 ->
      gweek i <> 0 \/ gpos_gweek i <> 0 ->
      pulse_sweek a = 10 -> pulse_sweek b = 11 -> pulse_sweek c = 50 ->
      jumps <$> javad_parse_t_all i [a; b; c]
        = [ if (lastsweek i =? 2 * WEEKSECS) || (lastsweek i =? 9)
               || (lastsweek i =? 10)
            then [] else [DbgSweekJumped (lastsweek i) 10];
            [];
            [DbgSweekJumped 11 50] ])
  /\ (forall (i' : instance) (jp : jpulse),
      gweek i = gweek i' -> gpos_gweek i = gpos_gweek i' ->
      gpos_sweek i = gpos_sweek i' -> timecode i = timecode i' ->
      (lastsweek i =? WEEKSECS - 1) = (lastsweek i' =? WEEKSECS - 1) ->
      gweek (out_instance (javad_parse_t i jp))
        = gweek (out_instance (javad_parse_t i' jp))
      /\ timecode (out_instance (javad_parse_t i jp))
        = timecode (out_instance (javad_parse_t i' jp))).
Proof.
  split; [|split].
  - intros jps Hin Hc. apply javad_parse_t_all_no_jump; assumption.
  - intros a b c Hr Hweek Ha Hb Hc. simpl.
    destruct (javad_parse_t_jumps i a Hweek) as (Hj1 & Hl1 & Hw1).
    specialize (Hw1 ltac:(lia)).
    destruct (javad_parse_t_jumps _ b Hw1) as (Hj2 & Hl2 & Hw2).
    specialize (Hw2 ltac:(lia)).
    destruct (javad_parse_t_jumps _ c Hw2) as (Hj3 & _ & _).
    rewrite Hj1, Hj2, Hj3. unfold pulse_warp.
    rewrite Hl2, Hl1, Ha, Hb, Hc.
    f_equal.
    destruct (Z.eqb_spec (lastsweek i) 10) as [E10|N10];
      [rewrite !orb_true_r; reflexivity|].
    destruct (Z.eqb_spec (lastsweek i) (2 * WEEKSECS)) as [Es|Ns];
      [reflexivity|].
    destruct (Z.eqb_spec (lastsweek i) 9) as [E9|N9].
    + rewrite E9. reflexivity.
    + destruct (Z.eqb_spec (u_int (lastsweek i + 1)) 10) as [Eu|Nu].
      * exfalso. unfold u_int in Eu.
        destruct (Z.eq_dec (lastsweek i) (2 ^ 32 - 1)) as [Em|Nm].
        -- rewrite Em in Eu. vm_compute in Eu. discriminate.
        -- rewrite Z.mod_small in Eu by lia. lia.
      * reflexivity.
  - intros i' jp Hg Hp Hs Htc Hl.
    pose proof (pulse_gweek_lastsweek i i' (pulse_sweek jp) Hg Hp Hs Hl) as E.
    destruct (pulse_gweek i (pulse_sweek jp)) as [[gw dbg]|] eqn:E1.
    + symmetry in E.
      destruct (javad_parse_t_processed i jp gw dbg E1) as (-> & _ & -> & _).
      destruct (javad_parse_t_processed i' jp gw dbg E) as (-> & _ & -> & _).
      split; reflexivity.
    + symmetry in E.
      apply pulse_gweek_dropped in E1, E.
      destruct E1 as [? ?], E as [? ?].
      rewrite (javad_parse_t_dropped i jp), (javad_parse_t_dropped i' jp)
        by assumption.
      simpl. auto.
Qed.


(** ** javad_recv *)

(** The search for the sync short ends within the iterations
    [javad_recv] gives it: fewer than two bytes are left, or the two
    bytes at the pointer are the sync short. *)
Lemma sync_scan_done : forall (fuel : nat) (bp : list Z) (n : Z),
  n <= Z.of_nat fuel ->
  snd (sync_scan fuel bp n) < 2
  \/ (nth 0 (fst (sync_scan fuel bp n)) 0 = Z.land JAVAD_SYNC 255
      /\ nth 1 (fst (sync_scan fuel bp n)) 0
         = Z.land (Z.shiftr JAVAD_SYNC 8) 255).
Proof.
  induction fuel as [|fuel IH]; intros bp n Hn.
  - left. simpl. lia.
  - cbn [sync_scan]. rewrite Z.geb_leb.
    destruct (Z.leb_spec 2 n) as [H2|H2]; [|left; simpl; lia].
    destruct (Z.eqb_spec (nth 0 bp 0) (Z.land JAVAD_SYNC 255)) as [E0|E0];
      cbn [negb].
    + destruct (Z.eqb_spec (nth 1 bp 0) (Z.land (Z.shiftr JAVAD_SYNC 8) 255))
        as [E1|E1].
      * right. simpl. auto.
      * apply IH. lia.
    + apply IH. lia.
Qed.

(** C6 (as the code has it).  For a message at the front of the buffer
    whose header is sound and declares [len = L > 0], with the
    [sizeof(struct jheader) + 2 * (L + 1)] bytes of it buffered: the
    payload is [L] shorts followed by the payload checksum short,
    [L + 1] shorts in all; [javad_recv] computes the checksum over the
    [L] payload shorts, compares it with the short after them, and
    returns the size of the message exactly when they are equal;
    otherwise it empties the buffer and returns 0. *)
Theorem javad_recv_payload (i : instance) :
  let sp := shorts (sbuf i) in
  let payload := shorts (drop (Z.to_nat sizeof_jheader) (sbuf i)) in
  let L := getshort (short_at sp 2) in
  sizeof_jheader <= ssize i ->
  getshort (short_at sp 0) = JAVAD_SYNC ->
  javad_cksum sp 5 = getshort (short_at sp 5) ->
  0 < L ->
  sizeof_jheader + (L + 1) * 2 <= ssize i ->
  javad_recv i =
    if javad_cksum payload (Z.to_nat L) =? getshort (short_at payload (Z.to_nat L))
    then (sizeof_jheader + (L + 1) * 2, i)
    else (0, set_ssize i 0).
Proof.
  intros sp payload L Hsize Hsync Hhsum HL Hall.
  unfold javad_recv.
  apply Z.ltb_ge in Hsize. rewrite Hsize.
  fold sp. rewrite Hsync, Z.eqb_refl. simpl negb. cbv iota.
  unfold recv_checked. fold sp.
  change (Z.to_nat (sizeof_jheader / 2 - 1)) with 5%nat.
  rewrite Hhsum, Z.eqb_refl. simpl negb. cbv iota.
  fold L. fold payload.
  apply Z.gtb_lt in HL. rewrite HL.
  apply Z.ltb_ge in Hall. rewrite Hall.
  destruct (javad_cksum payload (Z.to_nat L)
            =? getshort (short_at payload (Z.to_nat L))); reflexivity.
Qed.

(** ** Memory access *)

Lemma res_bind_Ret {A B : Type} (a : A) (k : A -> res B) : (Ret a ≫= k) = k a.
Proof. reflexivity. Qed.

Lemma peek_lookup buf (k : nat) c :
  (length buf <= sizeof_ibuf)%nat -> buf !! k = Some c -> peek buf k = Ret c.
Proof.
  intros Hlen Hk. unfold peek. pose proof (lookup_lt_Some _ _ _ Hk).
  destruct (decide (k < sizeof_ibuf)%nat); [|lia]. now rewrite Hk.
Qed.

Lemma poke_insert buf (k : nat) c :
  (length buf <= sizeof_ibuf)%nat -> (k < length buf)%nat ->
  poke buf k c = Ret (<[k:=c]> buf).
Proof.
  intros Hlen Hk. unfold poke.
  destruct (decide (k < sizeof_ibuf)%nat); [|lia].
  destruct (lookup_lt_is_Some_2 buf k Hk) as [x ->]. reflexivity.
Qed.

Lemma poke_Ret buf k c buf' :
  poke buf k c = Ret buf' -> buf' = <[k:=c]> buf /\ (k < length buf)%nat.
Proof.
  unfold poke. destruct (decide (k < sizeof_ibuf)%nat); [|discriminate].
  destruct (buf !! k) eqn:E; [|discriminate].
  intros [= <-]. split; [reflexivity|]. eapply lookup_lt_Some, E.
Qed.

(** ** strlcpy *)

(** What [strlcpy] leaves below the offset, and the size of the buffer. *)
Lemma strlcpy_frame src : forall dsize dst off dst',
  strlcpy dst off src dsize = Ret dst' ->
  length dst' = length dst /\ take off dst' = take off dst.
Proof.
  induction src as [|c src IH]; intros dsize dst off dst' H.
  - destruct dsize as [|[|n]]; simpl in H.
    + injection H as <-. auto.
    + apply poke_Ret in H as [-> _].
      rewrite length_insert, take_insert_ge by lia. auto.
    + apply poke_Ret in H as [-> _].
      rewrite length_insert, take_insert_ge by lia. auto.
  - destruct dsize as [|[|n]]; simpl in H.
    + injection H as <-. auto.
    + apply poke_Ret in H as [-> _].
      rewrite length_insert, take_insert_ge by lia. auto.
    + destruct (c =? NUL).
      * apply poke_Ret in H as [-> _].
        rewrite length_insert, take_insert_ge by lia. auto.
      * destruct (poke dst off c) as [d1| |] eqn:E; simpl in H; try discriminate.
        apply poke_Ret in E as [-> _].
        apply IH in H as [H1 H2].
        rewrite length_insert in H1. split; [exact H1|].
        apply (f_equal (take off)) in H2.
        rewrite !take_take in H2.
        replace (off `min` S off)%nat with off in H2 by lia.
        rewrite H2. apply take_insert_ge. lia.
Qed.

(** A string without NUL that fits is copied whole and terminated. *)
Lemma strlcpy_copy src : forall dst off,
  Forall (fun c => c <> NUL) src ->
  (length dst <= sizeof_ibuf)%nat ->
  (off + length src < length dst)%nat ->
  strlcpy dst off src (S (length src))
  = Ret (take off dst ++ src ++ NUL :: drop (S (off + length src)) dst).
Proof.
  induction src as [|c src IH]; intros dst off Hnul Hlen Hfit; simpl in *.
  - rewrite poke_insert by lia. f_equal.
    rewrite Nat.add_0_r. apply insert_take_drop. lia.
  - apply Forall_cons in Hnul as [Hc Hnul].
    apply Z.eqb_neq in Hc. rewrite Hc.
    rewrite poke_insert by lia. simpl.
    rewrite IH; [|assumption| |]. 2:{ rewrite length_insert. exact Hlen. } 2:{ rewrite length_insert; lia. }
    f_equal.
    rewrite drop_insert_lt by lia.
    rewrite (take_S_r (<[off:=c]> dst) off c)
      by (apply list_lookup_insert_eq; lia).
    rewrite take_insert_ge by lia.
    rewrite <- app_assoc. simpl.
    replace (S (off + S (length src))) with (S (S (off + length src))) by lia.
    reflexivity.
Qed.

(** ** The scan *)

Lemma find_crlf_bounds bs e : find_crlf bs = Some e -> (2 <= e <= length bs)%nat.
Proof.
  revert e. induction bs as [|c bs IH]; intros e; simpl; [discriminate|].
  destruct bs as [|c' bs]; [discriminate|].
  destruct ((c =? CR) && (c' =? LF)).
  - intros [= <-]. simpl. lia.
  - destruct (find_crlf (c' :: bs)) as [e'|] eqn:E; [|discriminate].
    intros [= <-]. specialize (IH e' eq_refl). simpl in *. lia.
Qed.

Lemma find_eol_bound buf : forall n k e,
  find_eol buf n k = Ret (Some e) -> (k + 2 <= e <= k + n + 1)%nat.
Proof.
  induction n as [|n IH]; intros k e; simpl; [discriminate|].
  destruct (peek buf k) as [c| |]; simpl; try discriminate.
  destruct (c =? CR).
  - destruct (peek buf (S k)) as [c'| |]; simpl; try discriminate.
    destruct (c' =? LF).
    + intros [= <-]. lia.
    + intros H. apply IH in H. lia.
  - intros H. apply IH in H. lia.
Qed.

Lemma poke_not_aborted buf k c : is_aborted (poke buf k c) = false.
Proof.
  unfold poke. destruct (decide (k < sizeof_ibuf)%nat); [|reflexivity].
  destruct (buf !! k); reflexivity.
Qed.

Lemma peek_not_aborted buf k : is_aborted (peek buf k) = false.
Proof.
  unfold peek. destruct (decide (k < sizeof_ibuf)%nat); [|reflexivity].
  destruct (buf !! k); reflexivity.
Qed.

Lemma bind_not_aborted {A B : Type} (m : res A) (k : A -> res B) :
  is_aborted m = false -> (forall a, is_aborted (k a) = false) ->
  is_aborted (m ≫= k) = false.
Proof. intros Hm Hk. destruct m; [apply Hk|reflexivity|discriminate]. Qed.

Lemma memcpy_not_aborted : forall n buf d s, is_aborted (memcpy buf d s n) = false.
Proof.
  induction n as [|n IH]; intros buf d s; simpl; [reflexivity|].
  apply bind_not_aborted; [apply peek_not_aborted|]. intros c.
  apply bind_not_aborted; [apply poke_not_aborted|]. intros b. apply IH.
Qed.

Lemma peeks_not_aborted : forall n buf k, is_aborted (peeks buf k n) = false.
Proof.
  induction n as [|n IH]; intros buf k; simpl; [reflexivity|].
  apply bind_not_aborted; [apply peek_not_aborted|]. intros c.
  apply bind_not_aborted; [apply IH|]. reflexivity.
Qed.

Lemma find_eol_not_aborted : forall n buf k, is_aborted (find_eol buf n k) = false.
Proof.
  induction n as [|n IH]; intros buf k; simpl; [reflexivity|].
  apply bind_not_aborted; [apply peek_not_aborted|]. intros c.
  destruct (c =? CR); [|apply IH].
  apply bind_not_aborted; [apply peek_not_aborted|]. intros c'.
  destruct (c' =? LF); [reflexivity|apply IH].
Qed.

Lemma strlcpy_not_aborted src : forall dsize dst off,
  is_aborted (strlcpy dst off src dsize) = false.
Proof.
  induction src as [|c src IH]; intros [|[|n]] dst off; simpl;
    try reflexivity; try apply poke_not_aborted.
  destruct (c =? NUL); [apply poke_not_aborted|].
  apply bind_not_aborted; [apply poke_not_aborted|]. intros b. apply IH.
Qed.

(** On a buffer the scan stays inside of, it finds the first CR LF. *)
Lemma find_eol_find_crlf buf : forall n k,
  (length buf <= sizeof_ibuf)%nat -> (k + n < length buf)%nat ->
  find_eol buf n k
  = Ret ((fun e => (k + e)%nat) <$> find_crlf (take (S n) (drop k buf))).
Proof.
  induction n as [|n IH]; intros k Hlen Hk.
  - simpl. destruct (drop k buf) as [|c [|c' r]]; reflexivity.
  - destruct (lookup_lt_is_Some_2 buf k ltac:(lia)) as [c Hc].
    destruct (lookup_lt_is_Some_2 buf (S k) ltac:(lia)) as [c' Hc'].
    rewrite (drop_S _ _ _ Hc), (drop_S _ _ _ Hc').
    change (find_eol buf (S n) k)
      with (c0 ← peek buf k;
            if c0 =? CR then
              c1 ← peek buf (S k);
              if c1 =? LF then Ret (Some (S (S k)))
              else find_eol buf n (S k)
            else find_eol buf n (S k)).
    rewrite (peek_lookup _ _ _ Hlen Hc), res_bind_Ret.
    assert (Hrec : find_eol buf n (S k)
                   = Ret ((fun e => (k + e)%nat) <$>
                            (S <$> find_crlf (take (S n) (c' :: drop (S (S k)) buf))))).
    { rewrite IH by lia. rewrite (drop_S _ _ _ Hc'). f_equal.
      destruct (find_crlf (take (S n) (c' :: drop (S (S k)) buf))); simpl;
        [f_equal; lia|reflexivity]. }
    change (take (S (S n)) (c :: c' :: drop (S (S k)) buf))
      with (c :: take (S n) (c' :: drop (S (S k)) buf)).
    change (take (S n) (c' :: drop (S (S k)) buf))
      with (c' :: take n (drop (S (S k)) buf)) in *.
    simpl find_crlf.
    destruct (c =? CR); simpl.
    + rewrite (peek_lookup _ _ _ Hlen Hc'), res_bind_Ret.
      destruct (c' =? LF); simpl.
      * f_equal. f_equal. lia.
      * exact Hrec.
    + exact Hrec.
Qed.

Lemma peeks_take buf : forall n k,
  (length buf <= sizeof_ibuf)%nat -> (k + n <= length buf)%nat ->
  peeks buf k n = Ret (take n (drop k buf)).
Proof.
  induction n as [|n IH]; intros k Hlen Hk; simpl; [reflexivity|].
  destruct (lookup_lt_is_Some_2 buf k ltac:(lia)) as [c Hc].
  rewrite (peek_lookup _ _ _ Hlen Hc), res_bind_Ret.
  rewrite IH by lia. rewrite res_bind_Ret.
  rewrite (drop_S _ _ _ Hc). reflexivity.
Qed.

(** ** memcpy *)

Lemma memcpy_length : forall n buf d s buf',
  memcpy buf d s n = Ret buf' -> length buf' = length buf.
Proof.
  induction n as [|n IH]; intros buf d s buf'; simpl.
  - now intros [= <-].
  - destruct (peek buf s) as [c| |]; simpl; try discriminate.
    destruct (poke buf d c) as [b1| |] eqn:E; simpl; try discriminate.
    apply poke_Ret in E as [-> _]. intros H. apply IH in H.
    now rewrite length_insert in H.
Qed.

(** Copying downwards by [e >= 1] bytes moves the source range even
    though it overlaps the destination. *)
Lemma memcpy_shift (e : nat) : forall n buf d,
  (1 <= e)%nat -> (length buf <= sizeof_ibuf)%nat ->
  (d + e + n <= length buf)%nat ->
  memcpy buf d (d + e) n
  = Ret (take d buf ++ take n (drop (d + e) buf) ++ drop (d + n) buf).
Proof.
  induction n as [|n IH]; intros buf d He Hlen Hfit; simpl.
  - rewrite Nat.add_0_r, take_drop. reflexivity.
  - destruct (lookup_lt_is_Some_2 buf (d + e) ltac:(lia)) as [c Hc].
    rewrite (peek_lookup _ _ _ Hlen Hc), res_bind_Ret.
    rewrite poke_insert by lia. rewrite res_bind_Ret.
    change (S (d + e)) with (S d + e)%nat.
    rewrite IH by (rewrite ?length_insert; lia).
    f_equal.
    rewrite (take_S_r (<[d:=c]> buf) d c) by (apply list_lookup_insert_eq; lia).
    rewrite take_insert_ge by lia.
    rewrite !drop_insert_lt by lia.
    rewrite (drop_S _ _ _ Hc). simpl.
    rewrite <- app_assoc. simpl.
    replace (d + S n)%nat with (S d + n)%nat by lia. reflexivity.
Qed.

(** ** javad_receive *)

Lemma res_bind_Fault {A B : Type} (k : A -> res B) : (Fault ≫= k) = Fault.
Proof. reflexivity. Qed.

Lemma res_bind_Aborted {A B : Type} (k : A -> res B) : (Aborted ≫= k) = Aborted.
Proof. reflexivity. Qed.

Lemma room_value ssz :
  0 <= ssz <= Z.of_nat sizeof_ibuf + 1 ->
  size_t (Z.of_nat sizeof_ibuf - size_t (ssz - 1)) = Z.of_nat sizeof_ibuf + 1 - ssz.
Proof.
  intros H. unfold size_t, sizeof_ibuf in *.
  destruct (Z.eq_dec ssz 0) as [->|Hnz]; [reflexivity|].
  rewrite (Z.mod_small (ssz - 1)) by lia. rewrite Z.mod_small by lia. lia.
Qed.

Lemma clamped_len_value i d :
  0 <= ssize i <= Z.of_nat sizeof_ibuf + 1 ->
  Z.of_nat (length d) < 2 ^ 31 ->
  clamped_len i d = Z.min (Z.of_nat (length d)) (Z.of_nat sizeof_ibuf + 1 - ssize i).
Proof.
  intros H Hd. unfold clamped_len. cbv zeta. rewrite room_value by assumption.
  rewrite size_t_small by lia.
  unfold sizeof_ibuf in *.
  destruct (Z.gtb_spec (Z.of_nat (length d)) (Z.of_nat 512 + 1 - ssize i)).
  - rewrite to_int_small by lia. lia.
  - lia.
Qed.

(** The scan never runs into [abort()]: the end of line it finds lies
    within the [ssize] bytes it scanned. *)
Lemma receive_scan_not_aborted i buf len :
  is_aborted (receive_scan i buf len) = false.
Proof.
  unfold receive_scan. cbv zeta. simpl ssize. simpl ibuf.
  destruct (find_eol buf (Z.to_nat (to_int (ssize i + len) - 1)) 0)
    as [[e|]| |] eqn:E; try reflexivity.
  - rewrite res_bind_Ret.
    apply bind_not_aborted; [apply peeks_not_aborted|]. intros line.
    apply find_eol_bound in E.
    destruct (Z.eqb_spec (to_int (ssize i + len)) (Z.of_nat e)).
    + apply bind_not_aborted; [apply poke_not_aborted|]. reflexivity.
    + destruct (Z.gtb_spec (to_int (ssize i + len)) (Z.of_nat e)).
      * apply bind_not_aborted; [apply memcpy_not_aborted|]. reflexivity.
      * exfalso. lia.
  - pose proof (find_eol_not_aborted (Z.to_nat (to_int (ssize i + len) - 1)) buf 0) as H.
    rewrite E in H. discriminate.
Qed.

Lemma javad_receive_not_aborted i d : is_aborted (javad_receive i d) = false.
Proof.
  unfold javad_receive. cbv zeta.
  apply bind_not_aborted; [apply strlcpy_not_aborted|].
  intros buf. apply receive_scan_not_aborted.
Qed.

Lemma javad_receive_all_not_aborted ds :
  forall i, is_aborted (javad_receive_all i ds) = false.
Proof.
  induction ds as [|d ds IH]; intros i; simpl; [reflexivity|].
  apply bind_not_aborted; [apply javad_receive_not_aborted|]. intros r.
  apply bind_not_aborted; [apply IH|]. reflexivity.
Qed.

Lemma scan_find_crlf buf w :
  length buf = sizeof_ibuf -> (length w < sizeof_ibuf)%nat ->
  take (length w) buf = w ->
  find_eol buf (Z.to_nat (Z.of_nat (length w) - 1)) 0 = Ret (find_crlf w).
Proof.
  intros Hlen Hw Htake.
  destruct w as [|c w].
  - reflexivity.
  - replace (Z.to_nat (Z.of_nat (length (c :: w)) - 1)) with (length w)
      by (simpl length; lia).
    rewrite find_eol_find_crlf by (simpl in Hw; lia).
    rewrite drop_0. change (S (length w)) with (length (c :: w)).
    rewrite Htake. f_equal. destruct (find_crlf (c :: w)); reflexivity.
Qed.

Lemma javad_receive_step p i d :
  holds p i -> Forall (fun c => c <> NUL) d ->
  (length (p ++ d) < sizeof_ibuf)%nat ->
  match find_crlf (p ++ d) with
  | None =>
      exists i', javad_receive i d = Ret (i', None) /\ holds (p ++ d) i'
  | Some e =>
      ((e < length (p ++ d))%nat -> (e + length (p ++ d) < sizeof_ibuf)%nat) ->
      exists i', javad_receive i d = Ret (i', Some (take e (p ++ d)))
                 /\ holds (drop e (p ++ d)) i'
  end.
Proof.
  intros (Hlen & Hss & Htake) Hnul Hfit.
  pose proof (length_app p d) as Happ.
  rewrite length_app in Hfit.
  assert (Hcl : clamped_len i d = Z.of_nat (length d)).
  { rewrite clamped_len_value; unfold sizeof_ibuf in *; lia. }
  unfold javad_receive. cbv zeta. rewrite Hcl, Hss.
  replace (Z.to_nat (size_t (to_int (Z.of_nat (length d) + 1))))
    with (S (length d))
    by (rewrite to_int_small, size_t_small; unfold sizeof_ibuf in *; lia).
  rewrite Nat2Z.id.
  rewrite strlcpy_copy by (try assumption; lia).
  rewrite res_bind_Ret, Htake.
  set (buf := p ++ d ++ NUL :: drop (S (length p + length d)) (ibuf i)).
  assert (Hblen : length buf = sizeof_ibuf).
  { unfold buf. rewrite !length_app. simpl. rewrite length_drop. lia. }
  assert (Hbw : take (length (p ++ d)) buf = p ++ d).
  { unfold buf. rewrite app_assoc. apply take_app_length. }
  unfold receive_scan. cbv zeta. simpl ssize. simpl ibuf. rewrite Hss.
  replace (to_int (Z.of_nat (length p) + Z.of_nat (length d)))
    with (Z.of_nat (length (p ++ d)))
    by (rewrite length_app, to_int_small; unfold sizeof_ibuf in *; lia).
  rewrite scan_find_crlf;
    [|exact Hblen|rewrite length_app; exact Hfit|exact Hbw].
  rewrite res_bind_Ret.
  destruct (find_crlf (p ++ d)) as [e|] eqn:E.
  - intros Hreach. apply find_crlf_bounds in E.
    rewrite peeks_take by lia. rewrite res_bind_Ret, drop_0.
    assert (Hline : take e buf = take e (p ++ d)).
    { rewrite <- Hbw, take_take. f_equal. lia. }
    rewrite Hline.
    destruct (Z.eqb_spec (Z.of_nat (length (p ++ d))) (Z.of_nat e)) as [Heq|Hne].
    + rewrite poke_insert by (rewrite Hblen; unfold sizeof_ibuf; lia).
      rewrite res_bind_Ret. eexists. split; [reflexivity|].
      rewrite drop_ge by lia. unfold holds. simpl.
      rewrite length_insert. auto.
    + destruct (Z.gtb_spec (Z.of_nat (length (p ++ d))) (Z.of_nat e)); [|lia].
      specialize (Hreach ltac:(lia)).
      replace (Z.to_nat (size_t (to_int (Z.of_nat (length (p ++ d)) + 1))))
        with (S (length (p ++ d)))
        by (rewrite to_int_small, size_t_small; unfold sizeof_ibuf in *; lia).
      pose proof (memcpy_shift e (S (length (p ++ d))) buf 0%nat
                    ltac:(lia) ltac:(lia) ltac:(lia)) as Hm.
      simpl Nat.add in Hm. rewrite Hm, res_bind_Ret.
      eexists. split; [reflexivity|].
      unfold holds. simpl ibuf. simpl ssize.
      split; [|split].
      * rewrite length_app, length_take, !length_drop. lia.
      * rewrite to_int_small, length_drop by (unfold sizeof_ibuf in *; lia). lia.
      * simpl app. rewrite take_app_le
          by (rewrite length_take, length_drop, length_drop; lia).
        rewrite take_take, length_drop.
        replace ((length (p ++ d) - e) `min` S (length (p ++ d)))%nat
          with (length (p ++ d) - e)%nat by lia.
        rewrite take_drop_commute.
        replace (e + (length (p ++ d) - e))%nat with (length (p ++ d)) by lia.
        now rewrite Hbw.
  - eexists. split; [reflexivity|].
    unfold holds. simpl. rewrite length_app. split; [exact Hblen|].
    split; [lia|]. rewrite <- length_app. exact Hbw.
Qed.

(** ** Runs of deliveries *)

Lemma find_crlf_cons c c' r :
  find_crlf (c :: c' :: r)
  = if (c =? CR) && (c' =? LF) then Some 2%nat else S <$> find_crlf (c' :: r).
Proof. reflexivity. Qed.

Lemma find_crlf_app_Some p q e :
  find_crlf p = Some e -> find_crlf (p ++ q) = Some e.
Proof.
  revert e. induction p as [|c p IH]; intros e; [discriminate|].
  destruct p as [|c' p]; [discriminate|].
  change ((c :: c' :: p) ++ q) with (c :: c' :: (p ++ q)).
  rewrite !find_crlf_cons.
  destruct ((c =? CR) && (c' =? LF)); [auto|].
  destruct (find_crlf (c' :: p)) as [e'|] eqn:E; [|discriminate].
  intros H. change (S <$> Some e') with (Some (S e')) in H.
  injection H as <-.
  change (c' :: p ++ q) with ((c' :: p) ++ q).
  rewrite (IH e' eq_refl). reflexivity.
Qed.

Lemma find_crlf_app_None p q :
  find_crlf (p ++ q) = None -> find_crlf p = None.
Proof.
  intros H. destruct (find_crlf p) as [e|] eqn:E; [|reflexivity].
  rewrite (find_crlf_app_Some _ q _ E) in H. discriminate.
Qed.

Lemma javad_receive_all_none ds : forall p i,
  holds p i -> Forall (fun c => c <> NUL) (concat ds) ->
  (length (p ++ concat ds) < sizeof_ibuf)%nat ->
  find_crlf (p ++ concat ds) = None ->
  exists i', javad_receive_all i ds = Ret (i', []) /\ holds (p ++ concat ds) i'.
Proof.
  induction ds as [|d ds IH]; intros p i Hp Hnul Hfit Hnone; simpl in *.
  - exists i. rewrite app_nil_r. auto.
  - apply Forall_app in Hnul as [Hd Hds].
    rewrite app_assoc in Hfit, Hnone |- *.
    pose proof (javad_receive_step p i d Hp Hd) as Hstep.
    rewrite (find_crlf_app_None _ _ Hnone) in Hstep.
    destruct Hstep as (i1 & E1 & H1); [rewrite length_app in Hfit; lia|].
    destruct (IH _ _ H1 Hds Hfit Hnone) as (i' & E' & H').
    exists i'. rewrite E1, res_bind_Ret. simpl fst.
    rewrite E', res_bind_Ret. auto.
Qed.

Lemma javad_receive_all_one ds : forall p i e,
  holds p i -> Forall (fun c => c <> NUL) (concat ds) ->
  (length (p ++ concat ds) < sizeof_ibuf)%nat ->
  find_crlf p = None ->
  find_crlf (p ++ concat ds) = Some e ->
  find_crlf (drop e (p ++ concat ds)) = None ->
  ((e < length (p ++ concat ds))%nat ->
   (e + length (p ++ concat ds) < sizeof_ibuf)%nat) ->
  exists i', javad_receive_all i ds = Ret (i', [take e (p ++ concat ds)])
             /\ holds (drop e (p ++ concat ds)) i'.
Proof.
  induction ds as [|d ds IH]; intros p i e Hp Hnul Hfit Hnone Hone Hrest Hreach;
    simpl in *.
  - rewrite app_nil_r in Hone. congruence.
  - apply Forall_app in Hnul as [Hd Hds].
    rewrite app_assoc in Hfit, Hone, Hrest, Hreach |- *.
    pose proof (javad_receive_step p i d Hp Hd) as Hstep.
    assert (Hpd : (length (p ++ d) <= length ((p ++ d) ++ concat ds))%nat)
      by (rewrite (length_app (p ++ d)); lia).
    destruct (find_crlf (p ++ d)) as [e'|] eqn:E.
    + pose proof (find_crlf_app_Some _ (concat ds) _ E) as E2.
      assert (e' = e) as -> by congruence.
      pose proof (find_crlf_bounds _ _ E) as Hb.
      destruct Hstep as (i1 & E1 & H1); [lia|lia|].
      rewrite drop_app_le in Hrest |- * by lia.
      rewrite take_app_le by lia.
      destruct (javad_receive_all_none ds _ _ H1 Hds) as (i' & E' & H').
      { rewrite length_app, length_drop. rewrite length_app in Hfit. lia. }
      { exact Hrest. }
      exists i'. rewrite E1, res_bind_Ret. simpl fst.
      rewrite E', res_bind_Ret. auto.
    + destruct Hstep as (i1 & E1 & H1); [lia|].
      destruct (IH _ _ e H1 Hds Hfit E Hone Hrest Hreach) as (i' & E' & H').
      exists i'. rewrite E1, res_bind_Ret. simpl fst.
      rewrite E', res_bind_Ret. auto.
Qed.

(** What any chunking of [bs] prints, and what it leaves buffered. *)
Lemma javad_receive_all_chunks bs chunks i :
  holds [] i -> concat chunks = bs ->
  Forall (fun c => c <> NUL) bs -> single_line bs ->
  (reach bs < sizeof_ibuf)%nat ->
  exists i',
    javad_receive_all i chunks
      = Ret (i', from_option (fun e => [take e bs]) [] (find_crlf bs))
    /\ holds (from_option (fun e => drop e bs) bs (find_crlf bs)) i'.
Proof.
  intros Hi <- Hnul Hsingle Hreach. unfold reach in Hreach.
  destruct (find_crlf (concat chunks)) as [e|] eqn:E; simpl.
  - pose proof (find_crlf_bounds _ _ E) as Hb.
    apply (javad_receive_all_one chunks [] i e); simpl; auto.
    + destruct (decide (e < length (concat chunks))%nat); lia.
    + intros H. destruct (decide (e < length (concat chunks))%nat); lia.
  - apply (javad_receive_all_none chunks [] i); simpl; auto.
Qed.


Lemma concat_singletons (bs : list Z) : concat ((fun b => [b]) <$> bs) = bs.
Proof. induction bs as [|b bs IH]; csimpl; [reflexivity|]. now rewrite IH. Qed.

(** C5 (as the code has it).  [javad_receive] prints at most one
    message a call and copies a delivery as a C string, so chunking
    matters in general.  For a byte sequence without NUL, with at most
    one CR LF, that fits [ibuf] (also while the leftovers are shifted),
    every chunking of it, empty deliveries included, prints the same
    messages as the delivery in one piece: the line up to the CR LF if
    there is one, nothing otherwise.  One byte at a time is such a
    chunking. *)
Theorem javad_receive_chunking (bs : list Z) (chunks : list (list Z))
    (i : instance) :
  length (ibuf i) = sizeof_ibuf -> ssize i = 0 ->
  concat chunks = bs ->
  Forall (fun c => c <> NUL) bs -> single_line bs ->
  (reach bs < sizeof_ibuf)%nat ->
  printed (javad_receive_all i chunks) = printed (javad_receive_all i [bs])
  /\ printed (javad_receive_all i ((fun b => [b]) <$> bs))
     = printed (javad_receive_all i [bs])
  /\ printed (javad_receive_all i [bs])
     = Some (from_option (fun e => [take e bs]) [] (find_crlf bs)).
Proof.
  intros Hlen Hss Hcat Hnul Hsingle Hreach.
  assert (Hi : holds [] i) by (unfold holds; simpl; auto).
  destruct (javad_receive_all_chunks bs chunks i Hi Hcat Hnul Hsingle Hreach)
    as (i1 & E1 & _).
  destruct (javad_receive_all_chunks bs _ i Hi (concat_singletons bs)
              Hnul Hsingle Hreach) as (i2 & E2 & _).
  destruct (javad_receive_all_chunks bs [bs] i Hi (app_nil_r bs)
              Hnul Hsingle Hreach) as (i3 & E3 & _).
  rewrite E1, E2, E3. simpl. auto.
Qed.

(** What a call that returns leaves of the buffer. *)
Lemma javad_receive_bounded i d i' out :
  wf_ibuf i -> Z.of_nat (length d) < 2 ^ 31 ->
  javad_receive i d = Ret (i', out) ->
  wf_ibuf i'
  /\ (out = None ->
      take (Z.to_nat (ssize i)) (ibuf i') = take (Z.to_nat (ssize i)) (ibuf i)
      /\ ssize i' = ssize i
                    + Z.min (Z.of_nat (length d))
                        (Z.of_nat sizeof_ibuf + 1 - ssize i)).
Proof.
  intros [Hlen Hss] Hd. unfold javad_receive. cbv zeta.
  pose proof (clamped_len_value i d Hss Hd) as Hcl.
  destruct (strlcpy (ibuf i) (Z.to_nat (ssize i)) d
              (Z.to_nat (size_t (to_int (clamped_len i d + 1)))))
    as [buf| |] eqn:Es;
    try discriminate.
  apply strlcpy_frame in Es as [Hbl Hbt]. rewrite res_bind_Ret.
  unfold receive_scan. cbv zeta. simpl ssize. simpl ibuf.
  assert (Hs1 : to_int (ssize i + clamped_len i d)
                = ssize i + clamped_len i d)
    by (apply to_int_small; unfold sizeof_ibuf in *; lia).
  rewrite Hs1.
  destruct (find_eol buf (Z.to_nat (ssize i + clamped_len i d - 1)) 0)
    as [[e|]| |] eqn:E; try discriminate; rewrite res_bind_Ret.
  - apply find_eol_bound in E.
    destruct (peeks buf 0 e) as [line| |]; try discriminate.
    rewrite res_bind_Ret.
    destruct (Z.eqb_spec (ssize i + clamped_len i d) (Z.of_nat e)).
    + destruct (poke buf 0 NUL) as [b2| |] eqn:Ep; try discriminate.
      apply poke_Ret in Ep as [-> _]. rewrite res_bind_Ret.
      intros [= <- <-]. split; [|discriminate].
      unfold wf_ibuf. simpl. rewrite length_insert. unfold sizeof_ibuf in *. lia.
    + destruct (Z.gtb_spec (ssize i + clamped_len i d) (Z.of_nat e)); [|discriminate].
      destruct (memcpy buf 0 e _) as [b2| |] eqn:Em; try discriminate.
      apply memcpy_length in Em. rewrite res_bind_Ret.
      intros [= <- <-]. split; [|discriminate].
      unfold wf_ibuf. simpl.
      rewrite to_int_small by (unfold sizeof_ibuf in *; lia).
      unfold sizeof_ibuf in *. lia.
  - intros [= <- <-]. split.
    + unfold wf_ibuf. simpl. unfold sizeof_ibuf in *. lia.
    + intros _. simpl. rewrite Hcl. auto.
Qed.

Lemma strlcpy_pokes (src : list Z) : forall (dsize : nat) (dst : list Z)
    (off : nat),
  strlcpy dst off src dsize = pokes dst (strlcpy_stores off src dsize).
Proof.
  assert (Hone : forall dst off,
             poke dst off NUL = pokes dst [(off, NUL)]).
  { intros dst off. cbn [pokes fst snd].
    destruct (poke dst off NUL); reflexivity. }
  induction src as [|c src IH]; intros dsize dst off.
  - destruct dsize as [|[|n]]; [reflexivity|apply Hone|apply Hone].
  - destruct dsize as [|[|n]]; [reflexivity|apply Hone|].
    change (strlcpy dst off (c :: src) (S (S n)))
      with (if c =? NUL then poke dst off NUL
            else dst' ← poke dst off c; strlcpy dst' (S off) src (S n)).
    change (strlcpy_stores off (c :: src) (S (S n)))
      with (if c =? NUL then [(off, NUL)]
            else (off, c) :: strlcpy_stores (S off) src (S n)).
    destruct (c =? NUL); [apply Hone|].
    cbn [pokes fst snd].
    destruct (poke dst off c) as [dst'| |]; try reflexivity.
    rewrite !res_bind_Ret. apply IH.
Qed.

(** The stores of [strlcpy]: the first [k] characters of the source,
    at consecutive indices from the offset, then the NUL. *)
Lemma strlcpy_stores_shape (src : list Z) : forall (dsize off : nat),
  (0 < dsize)%nat ->
  exists k : nat,
    (k <= length src)%nat /\ (k <= dsize - 1)%nat
    /\ fst <$> strlcpy_stores off src dsize = seq off (S k)
    /\ snd <$> strlcpy_stores off src dsize = take k src ++ [NUL]
    /\ (Forall (fun c => c <> NUL) src ->
        k = Nat.min (length src) (dsize - 1)).
Proof.
  induction src as [|c src IH]; intros dsize off Hpos.
  - exists 0%nat. destruct dsize as [|[|n]]; [lia| |];
      cbn; repeat split; auto; lia.
  - destruct dsize as [|[|n]]; [lia| |].
    + exists 0%nat. cbn. repeat split; auto; lia.
    + change (strlcpy_stores off (c :: src) (S (S n)))
        with (if c =? NUL then [(off, NUL)]
              else (off, c) :: strlcpy_stores (S off) src (S n)).
      destruct (Z.eqb_spec c NUL) as [Ec|Nc].
      * exists 0%nat. cbn. repeat split; auto; try lia.
        intros H. apply Forall_cons in H as [H _]. contradiction.
      * destruct (IH (S n) (S off) ltac:(lia)) as (k & Hk1 & Hk2 & Hf & Hs & Hn).
        exists (S k). cbn [length]. split; [lia|]. split; [lia|].
        rewrite !fmap_cons, Hf, Hs. cbn [fst snd].
        split; [reflexivity|]. split; [reflexivity|].
        intros H. apply Forall_cons in H as [_ H]. rewrite (Hn H). lia.
Qed.

(** C7 (as the code has it).  The append of [javad_receive] is the
    run of stores [append_stores].  For every delivery, one that does
    not fit included, they lie at consecutive indices from [ssize] on,
    never below it, and what they store is a leading part of the
    delivery, no longer than the clamped length [len], followed by a
    NUL; for a delivery without NUL it is the first [len] bytes.  So
    what is dropped of a delivery is its end, and the bytes buffered
    before are never overwritten.  A call that returns with no
    terminator found leaves them in place, with [ssize] grown by no
    more than the delivery; a delivery without NUL that fits is
    appended whole. *)
Theorem javad_receive_overflow (i : instance) (d : list Z) :
  length (ibuf i) = sizeof_ibuf ->
  0 <= ssize i <= Z.of_nat sizeof_ibuf ->
  Z.of_nat (length d) < 2 ^ 31 ->
  javad_receive i d
  = (buf ← pokes (ibuf i) (append_stores i d);
     receive_scan i buf (clamped_len i d))
  /\ fst <$> append_stores i d
     = seq (Z.to_nat (ssize i)) (length (append_stores i d))
  /\ (exists k : nat,
        (k <= length d)%nat /\ Z.of_nat k <= clamped_len i d
        /\ snd <$> append_stores i d = take k d ++ [NUL]
        /\ (Forall (fun c => c <> NUL) d -> Z.of_nat k = clamped_len i d))
  /\ clamped_len i d <= Z.of_nat (length d)
  /\ (ssize i + Z.of_nat (length d) < Z.of_nat sizeof_ibuf ->
      clamped_len i d = Z.of_nat (length d))
  /\ (forall i' : instance,
        javad_receive i d = Ret (i', None) ->
        take (Z.to_nat (ssize i)) (ibuf i') = take (Z.to_nat (ssize i)) (ibuf i)
        /\ ssize i <= ssize i' <= ssize i + Z.of_nat (length d))
  /\ (forall p : list Z,
        holds p i -> Forall (fun c => c <> NUL) d ->
        (length (p ++ d) < sizeof_ibuf)%nat ->
        find_crlf (p ++ d) = None ->
        exists i' : instance,
          javad_receive i d = Ret (i', None) /\ holds (p ++ d) i').
Proof.
  intros Hlen Hss Hd.
  assert (Hss' : 0 <= ssize i <= Z.of_nat sizeof_ibuf + 1) by lia.
  pose proof (clamped_len_value i d Hss' Hd) as Hcl.
  assert (Hdsize : Z.to_nat (size_t (to_int (clamped_len i d + 1)))
                   = S (Z.to_nat (clamped_len i d))).
  { rewrite to_int_small, size_t_small
      by (rewrite Hcl; unfold sizeof_ibuf in *; lia).
    rewrite Hcl. lia. }
  split; [|split; [|split; [|split; [|split; [|split]]]]].
  - unfold javad_receive, append_stores. cbv zeta.
    now rewrite strlcpy_pokes.
  - unfold append_stores. rewrite Hdsize.
    destruct (strlcpy_stores_shape d (S (Z.to_nat (clamped_len i d)))
                (Z.to_nat (ssize i)) ltac:(lia)) as (k & _ & _ & Hf & _).
    rewrite <- (length_fmap fst), Hf, length_seq. reflexivity.
  - unfold append_stores. rewrite Hdsize.
    destruct (strlcpy_stores_shape d (S (Z.to_nat (clamped_len i d)))
                (Z.to_nat (ssize i)) ltac:(lia)) as (k & Hk1 & Hk2 & _ & Hs & Hn).
    exists k. split; [exact Hk1|]. split; [lia|]. split; [exact Hs|].
    intros Hnul. rewrite (Hn Hnul). lia.
  - lia.
  - intros Hfit. lia.
  - intros i' Hr.
    destruct (javad_receive_bounded i d i' None (conj Hlen Hss') Hd Hr)
      as [_ Hnone].
    destruct (Hnone eq_refl) as [Ht Hsz]. split; [exact Ht|]. lia.
  - intros p Hp Hnul Hfit Hnone.
    pose proof (javad_receive_step p i d Hp Hnul Hfit) as Hstep.
    rewrite Hnone in Hstep. exact Hstep.
Qed.

(** C10.  Whenever the scan of [javad_receive] finds a CR LF, the
    length of the line with its terminator ([eol - ibuf], the position
    of the LF plus one) is at most the [ssize] it scanned; so no
    sequence of deliveries, from any instance, reaches the
    [ssize < len] branch and its [abort()]. *)
Theorem javad_receive_no_abort (i : instance) (ds : list (list Z)) :
  (forall (d buf : list Z),
      match find_eol buf
              (Z.to_nat (to_int (ssize i + clamped_len i d) - 1)) 0 with
      | Ret (Some e) => Z.of_nat e <= to_int (ssize i + clamped_len i d)
      | _ => True
      end)
  /\ is_aborted (javad_receive_all i ds) = false.
Proof.
  split; [|apply javad_receive_all_not_aborted].
  intros d buf.
  destruct (find_eol buf _ 0) as [[e|]| |] eqn:E; try exact I.
  apply find_eol_bound in E. lia.
Qed.

(** ** javad_cksum: what it detects and what it does not *)

Lemma word_sum_insert (ws : list Z) : forall (k : nat) (w w' : Z),
  ws !! k = Some w ->
  word_sum (<[k:=w']> ws) = word_sum ws - getshort w + getshort w'.
Proof.
  unfold word_sum. induction ws as [|x ws IH]; intros k w w' Hk.
  - discriminate.
  - destruct k as [|k]; csimpl in *.
    + injection Hk as ->. lia.
    + rewrite (IH k w w' Hk). lia.
Qed.

Lemma word_sum_Permutation (ws ws' : list Z) :
  Permutation ws ws' -> word_sum ws = word_sum ws'.
Proof.
  unfold word_sum. induction 1; csimpl; lia.
Qed.

(** Only the first [len] shorts at the pointer are read. *)
Lemma cksum_loop_app (ws rest : list Z) : forall sum,
  cksum_loop (ws ++ rest) (length ws) sum = cksum_loop ws (length ws) sum.
Proof.
  induction ws as [|x ws IH]; intros sum; simpl.
  - destruct rest; reflexivity.
  - apply IH.
Qed.

Lemma javad_cksum_app (ws rest : list Z) :
  javad_cksum (ws ++ rest) (length ws) = javad_cksum ws (length ws).
Proof. unfold javad_cksum. now rewrite cksum_loop_app. Qed.

Lemma javad_cksum_take (sp : list Z) (len : nat) :
  (len <= length sp)%nat ->
  javad_cksum sp len = javad_cksum (take len sp) (length (take len sp)).
Proof.
  intros H. rewrite length_take, Nat.min_l by lia.
  pose proof (javad_cksum_app (take len sp) (drop len sp)) as E.
  rewrite take_drop, length_take, Nat.min_l in E by lia. exact E.
Qed.

Lemma javad_cksum_range (sp : list Z) (len : nat) :
  0 <= javad_cksum sp len < 2 ^ 16.
Proof. apply u_short_range. Qed.

Lemma javad_cksum_insert_differs (ws : list Z) (k : nat) (w w' : Z) :
  ws !! k = Some w ->
  getshort w' <> getshort w ->
  (javad_cksum (<[k:=w']> ws) (length (<[k:=w']> ws))
     =? javad_cksum ws (length ws)) = false.
Proof.
  intros Hk Hne. rewrite !javad_cksum_word_sum, (word_sum_insert ws k w w' Hk).
  pose proof (getshort_range w) as Hw. pose proof (getshort_range w') as Hw'.
  apply Z.eqb_neq. intros H.
  apply Hne. revert H.
  generalize (word_sum ws). intros S H.
  assert (Hd : (getshort w' - getshort w) mod 2 ^ 16 = 0).
  { replace (getshort w' - getshort w)
      with ((- S) - (- (S - getshort w + getshort w'))) by lia.
    rewrite Zminus_mod, H, Z.sub_diag. reflexivity. }
  apply Z.mod_divide in Hd; [|lia].
  destruct Hd as [q Hq]. lia.
Qed.

(** Replacing one short of a sequence by a short of another value
    changes the checksum: a single corrupted short never goes
    unnoticed. *)
Theorem javad_cksum_detects_short (ws : list Z) (k : nat) (w w' : Z) :
  ws !! k = Some w ->
  getshort w' <> getshort w ->
  (javad_cksum (<[k:=w']> ws) (length (<[k:=w']> ws))
     =? javad_cksum ws (length ws)) = false.
Proof. apply javad_cksum_insert_differs. Qed.

(** The checksum is a sum: it is the same for every reordering of the
    shorts, so shorts that change places go unnoticed. *)
Theorem javad_cksum_Permutation (ws ws' : list Z) :
  Permutation ws ws' ->
  javad_cksum ws (length ws) = javad_cksum ws' (length ws').
Proof.
  intros H. rewrite !javad_cksum_word_sum.
  now rewrite (word_sum_Permutation ws ws' H).
Qed.

(** ** javad_recv: what it accepts *)

Lemma land_mul_pow2_8 m b : 0 <= b < 2 ^ 8 -> Z.land (m * 2 ^ 8) b = 0.
Proof.
  intros Hb. apply Z.bits_inj'. intros n Hn.
  rewrite Z.land_spec, Z.bits_0.
  destruct (Z.lt_ge_cases n 8).
  - rewrite Z.mul_pow2_bits_low by lia. reflexivity.
  - rewrite <- (Z.mod_small b (2 ^ 8)) by lia.
    rewrite Z.mod_pow2_bits_high by lia. apply andb_false_r.
Qed.

Lemma swap_bytes_pair hi lo :
  0 <= hi < 256 -> 0 <= lo < 256 -> swap_bytes (hi * 256 + lo) = lo * 256 + hi.
Proof.
  intros Hhi Hlo. unfold swap_bytes.
  change 255 with (Z.ones 8). rewrite !Z.land_ones by lia.
  rewrite Z.shiftl_mul_pow2, Z.shiftr_div_pow2 by lia.
  change (2 ^ 8) with 256.
  replace ((hi * 256 + lo) mod 256) with lo
    by (rewrite Z.add_comm, Z.mod_add, Z.mod_small; lia).
  replace ((hi * 256 + lo) / 256) with hi
    by (rewrite Z.add_comm, Z.div_add, Z.div_small; lia).
  rewrite (Z.mod_small hi) by lia.
  rewrite <- Z.add_lor_land.
  change 256 with (2 ^ 8). rewrite land_mul_pow2_8 by lia. lia.
Qed.

(** Whatever the host, [getshort] of the short read from two bytes is
    the little-endian value of the bytes. *)
Lemma getshort_host_short b0 b1 :
  0 <= b0 < 256 -> 0 <= b1 < 256 ->
  getshort (host_short b0 b1) = b0 + 256 * b1.
Proof.
  intros H0 H1. unfold getshort, host_short. destruct WORDS_BIGENDIAN.
  - rewrite swap_bytes_pair by lia. lia.
  - apply u_short_small. lia.
Qed.

Lemma shorts_cons2 b0 b1 rest :
  shorts (b0 :: b1 :: rest) = host_short b0 b1 :: shorts rest.
Proof. reflexivity. Qed.

(** Induction on a list two elements at a time. *)
Lemma list_pair_ind (P : list Z -> Prop) :
  P [] -> (forall b, P [b]) ->
  (forall b0 b1 rest, P rest -> P (b0 :: b1 :: rest)) ->
  forall l, P l.
Proof.
  intros H0 H1 H2.
  assert (H : forall l, P l /\ forall b, P (b :: l)).
  { induction l as [|b l [IH1 IH2]]; split; auto. }
  intros l. apply H.
Qed.

Lemma length_shorts (buf : list Z) :
  length (shorts buf) = (length buf / 2)%nat.
Proof.
  induction buf as [|x|b0 b1 rest IH] using list_pair_ind; try reflexivity.
  rewrite shorts_cons2. cbn [length]. rewrite IH.
  change (S (S (length rest))) with (2 + length rest)%nat.
  replace (2 + length rest)%nat with (length rest + 1 * 2)%nat by lia.
  rewrite Nat.div_add by lia. lia.
Qed.

Lemma shorts_app (p q : list Z) :
  Nat.even (length p) = true -> shorts (p ++ q) = shorts p ++ shorts q.
Proof.
  induction p as [|x|b0 b1 rest IH] using list_pair_ind; intros He.
  - reflexivity.
  - discriminate.
  - cbn [app]. rewrite !shorts_cons2, IH by exact He. reflexivity.
Qed.

(** A byte written into the buffer changes the one short it lies in. *)
Lemma shorts_insert (buf : list Z) : forall (k : nat) (b : Z),
  (2 * (k / 2) + 1 < length buf)%nat ->
  shorts (<[k:=b]> buf)
  = <[(k / 2)%nat :=
        host_short (nth (2 * (k / 2)) (<[k:=b]> buf) 0)
                   (nth (2 * (k / 2) + 1) (<[k:=b]> buf) 0)]> (shorts buf).
Proof.
  induction buf as [|x|b0 b1 rest IH] using list_pair_ind; intros k b Hk.
  - simpl in Hk. lia.
  - simpl in Hk. lia.
  - destruct k as [|[|k]].
    + reflexivity.
    + reflexivity.
    + change (<[S (S k):=b]> (b0 :: b1 :: rest))
        with (b0 :: b1 :: <[k:=b]> rest).
      assert (Hd : (S (S k) / 2 = S (k / 2))%nat).
      { replace (S (S k)) with (k + 1 * 2)%nat by lia.
        rewrite Nat.div_add by lia. lia. }
      rewrite Hd in *. rewrite !shorts_cons2.
      cbn [length] in Hk.
      rewrite IH by lia.
      replace (2 * S (k / 2))%nat with (S (S (2 * (k / 2)))) by lia.
      reflexivity.
Qed.

Lemma cksum_loop_app_le (ws rest : list Z) : forall (len : nat) sum,
  (len <= length ws)%nat ->
  cksum_loop (ws ++ rest) len sum = cksum_loop ws len sum.
Proof.
  induction ws as [|x ws IH]; intros len sum Hlen.
  - simpl in Hlen. replace len with 0%nat by lia. destruct rest; reflexivity.
  - destruct len as [|len]; [reflexivity|]. simpl. apply IH. simpl in Hlen. lia.
Qed.

Lemma javad_cksum_app_le (ws rest : list Z) (len : nat) :
  (len <= length ws)%nat ->
  javad_cksum (ws ++ rest) len = javad_cksum ws len.
Proof. intros H. unfold javad_cksum. now rewrite cksum_loop_app_le. Qed.

Lemma short_at_app_l (ws rest : list Z) (k : nat) :
  (k < length ws)%nat -> short_at (ws ++ rest) k = short_at ws k.
Proof. intros H. unfold short_at. now rewrite app_nth1. Qed.

(** A message at the front is accepted whole and left in place. *)
Lemma javad_recv_message (i : instance) :
  message_at_front i ->
  javad_recv i
  = (sizeof_jheader
     + (getshort (short_at (shorts (sbuf i)) 2) + 1) * 2, i).
Proof.
  intros (_ & Hsync & Hhsum & HL & Hall & Hpsum).
  unfold javad_recv.
  assert (Hsize : (ssize i <? sizeof_jheader) = false)
    by (apply Z.ltb_ge; unfold sizeof_jheader in *; lia).
  rewrite Hsize, Hsync, Z.eqb_refl. simpl negb. cbv iota.
  unfold recv_checked.
  change (Z.to_nat (sizeof_jheader / 2 - 1)) with 5%nat.
  rewrite Hhsum, Z.eqb_refl. simpl negb. cbv iota.
  apply Z.gtb_lt in HL. rewrite HL.
  apply Z.ltb_ge in Hall. rewrite Hall.
  rewrite Hpsum, Z.eqb_refl. reflexivity.
Qed.

Lemma sync_scan_le : forall (fuel : nat) (bp : list Z) (n : Z),
  snd (sync_scan fuel bp n) <= n.
Proof.
  induction fuel as [|fuel IH]; intros bp n; cbn [sync_scan]; [simpl; lia|].
  destruct (n >=? 2); [|simpl; lia].
  destruct (negb (nth 0 bp 0 =? Z.land JAVAD_SYNC 255)).
  - specialize (IH (drop 1 bp) (n - 1)). lia.
  - destruct (nth 1 bp 0 =? Z.land (Z.shiftr JAVAD_SYNC 8) 255); [simpl; lia|].
    specialize (IH (drop 2 bp) (n - 2)). lia.
Qed.

Lemma recv_checked_sound (i : instance) (size : Z) :
  sizeof_jheader <= size ->
  0 < fst (recv_checked i size) ->
  let sp := shorts (sbuf i) in
  let payload := shorts (drop (Z.to_nat sizeof_jheader) (sbuf i)) in
  let L := getshort (short_at sp 2) in
  snd (recv_checked i size) = i
  /\ javad_cksum sp 5 = getshort (short_at sp 5)
  /\ fst (recv_checked i size)
     = (if L >? 0 then sizeof_jheader + (L + 1) * 2 else sizeof_jheader)
  /\ (0 < L ->
      javad_cksum payload (Z.to_nat L) = getshort (short_at payload (Z.to_nat L)))
  /\ fst (recv_checked i size) <= size.
Proof.
  intros Hsize. unfold recv_checked.
  change (Z.to_nat (sizeof_jheader / 2 - 1)) with 5%nat.
  destruct (Z.eqb_spec (javad_cksum (shorts (sbuf i)) 5)
              (getshort (short_at (shorts (sbuf i)) 5))) as [Hh|Hh];
    cbn [negb]; [|simpl; lia].
  destruct (Z.gtb_spec (getshort (short_at (shorts (sbuf i)) 2)) 0) as [HL|HL].
  - destruct (Z.ltb_spec size
                (sizeof_jheader
                 + (getshort (short_at (shorts (sbuf i)) 2) + 1) * 2));
      [simpl; lia|].
    destruct (Z.eqb_spec
                (javad_cksum (shorts (drop (Z.to_nat sizeof_jheader) (sbuf i)))
                   (Z.to_nat (getshort (short_at (shorts (sbuf i)) 2))))
                (getshort
                   (short_at (shorts (drop (Z.to_nat sizeof_jheader) (sbuf i)))
                      (Z.to_nat (getshort (short_at (shorts (sbuf i)) 2))))))
      as [Hp|Hp]; cbn [negb]; [|simpl; lia].
    intros _. cbn [fst snd]. repeat split; auto.
  - intros _. cbn [fst snd]. repeat split; auto. intros H. lia.
Qed.

(** [javad_recv] returns a size only for a message that is sound and
    all there: the sync short is at the front of the buffer it leaves,
    the header checksum holds, the size is that of the header and of
    the [len + 1] shorts the header declares, whose checksum holds too,
    and the message lies within the bytes buffered.  The buffered size
    never grows. *)
Theorem javad_recv_sound (i : instance) :
  0 < fst (javad_recv i) ->
  let cc := fst (javad_recv i) in
  let i' := snd (javad_recv i) in
  let sp := shorts (sbuf i') in
  let payload := shorts (drop (Z.to_nat sizeof_jheader) (sbuf i')) in
  let L := getshort (short_at sp 2) in
  (getshort (short_at sp 0) = JAVAD_SYNC \/ short_at sp 0 = JAVAD_SYNC)
  /\ javad_cksum sp 5 = getshort (short_at sp 5)
  /\ cc = (if L >? 0 then sizeof_jheader + (L + 1) * 2 else sizeof_jheader)
  /\ (0 < L ->
      javad_cksum payload (Z.to_nat L) = getshort (short_at payload (Z.to_nat L)))
  /\ cc <= ssize i'
  /\ ssize i' <= ssize i.
Proof.
  unfold javad_recv.
  destruct (Z.ltb_spec (ssize i) sizeof_jheader) as [Hlt|Hge];
    [simpl; lia|].
  destruct (Z.eqb_spec (getshort (short_at (shorts (sbuf i)) 0)) JAVAD_SYNC)
    as [Hs|Hs]; cbn [negb].
  - intros Hpos.
    destruct (recv_checked_sound i (ssize i) Hge Hpos)
      as (Hi & Hh & Hcc & Hp & Hle).
    cbv zeta. rewrite Hi. repeat split; auto. lia.
  - pose proof (sync_scan_le (Z.to_nat (ssize i)) (sbuf i) (ssize i)) as Hn.
    destruct (sync_scan (Z.to_nat (ssize i)) (sbuf i) (ssize i)) as [bp n].
    cbn [snd] in Hn.
    set (i1 := set_ssize (set_sbuf i _) n).
    destruct (Z.ltb_spec n sizeof_jheader) as [Hlt|Hge1]; cbn [orb];
      [simpl; lia|].
    destruct (Z.eqb_spec (short_at (shorts (sbuf i1)) 0) JAVAD_SYNC)
      as [Hs1|Hs1]; cbn [negb]; [|simpl; lia].
    intros Hpos.
    destruct (recv_checked_sound i1 n Hge1 Hpos)
      as (Hi & Hh & Hcc & Hp & Hle).
    cbv zeta. rewrite Hi. repeat split; auto.
Qed.

Lemma bytes_lookup (buf : list Z) (k : nat) (b : Z) :
  bytes buf -> buf !! k = Some b -> 0 <= b < 256.
Proof. intros H Hk. exact (proj1 (Forall_lookup _ _) H k b Hk). Qed.

Lemma nth_lookup_Z (buf : list Z) (k : nat) (b : Z) :
  buf !! k = Some b -> nth k buf 0 = b.
Proof. intros H. now apply nth_lookup_Some with (d := 0) in H. Qed.

(** A message at the front with one byte of its payload, or of its
    payload checksum, changed is refused and the buffer emptied. *)
Theorem javad_recv_corrupt_payload (i : instance) (k : nat) (b b' : Z) :
  message_at_front i -> bytes (sbuf i) ->
  let L := getshort (short_at (shorts (sbuf i)) 2) in
  sizeof_jheader <= Z.of_nat k < sizeof_jheader + (L + 1) * 2 ->
  sbuf i !! k = Some b -> 0 <= b' < 256 -> b' <> b ->
  javad_recv (set_sbuf i (<[k:=b']> (sbuf i)))
  = (0, set_ssize (set_sbuf i (<[k:=b']> (sbuf i))) 0).
Proof.
  intros (Hfit & Hsync & Hhsum & HL & Hall & Hpsum) Hbytes L Hk Hkb Hb' Hne.
  fold L in HL, Hall, Hpsum.
  pose proof (lookup_lt_Some _ _ _ Hkb) as Hklen.
  unfold sizeof_jheader in *.
  change (Z.to_nat 12) with 12%nat in *.
  set (buf := sbuf i) in *.
  (* the header is untouched *)
  assert (Hsplit : forall l : list Z, (12 <= length l)%nat ->
             shorts l = shorts (take 12 l) ++ shorts (drop 12 l)).
  { intros l Hl. rewrite <- (take_drop 12 l) at 1.
    apply shorts_app. rewrite length_take, Nat.min_l by lia. reflexivity. }
  assert (Hlen6 : forall l : list Z, (12 <= length l)%nat ->
             length (shorts (take 12 l)) = 6%nat).
  { intros l Hl. rewrite length_shorts, length_take, Nat.min_l by lia.
    reflexivity. }
  assert (Hhead : take 12 (<[k:=b']> buf) = take 12 buf)
    by (apply take_insert_ge; lia).
  assert (Hsp : forall j, (j < 6)%nat ->
             short_at (shorts (<[k:=b']> buf)) j = short_at (shorts buf) j).
  { intros j Hj.
    rewrite (Hsplit (<[k:=b']> buf)), (Hsplit buf)
      by (rewrite ?length_insert; lia).
    rewrite !short_at_app_l by (rewrite Hlen6; rewrite ?length_insert; lia).
    now rewrite Hhead. }
  assert (Hck : javad_cksum (shorts (<[k:=b']> buf)) 5
                = javad_cksum (shorts buf) 5).
  { rewrite (Hsplit (<[k:=b']> buf)), (Hsplit buf)
      by (rewrite ?length_insert; lia).
    rewrite !javad_cksum_app_le by (rewrite Hlen6; rewrite ?length_insert; lia).
    now rewrite Hhead. }
  (* the payload has one short changed *)
  set (pb := drop 12 buf).
  set (j := (k - 12)%nat).
  assert (Hpb : drop 12 (<[k:=b']> buf) = <[j:=b']> pb)
    by (apply drop_insert_ge; lia).
  assert (Hpbj : pb !! j = Some b).
  { unfold pb, j. rewrite lookup_drop. rewrite <- Hkb. f_equal. lia. }
  assert (Hpblen : (2 * (Z.to_nat L + 1) <= length pb)%nat).
  { unfold pb. rewrite length_drop. lia. }
  assert (Hjm : (j / 2 <= Z.to_nat L)%nat).
  { apply Nat.lt_succ_r. apply Nat.Div0.div_lt_upper_bound. unfold j. lia. }
  assert (Hj2 : (2 * (j / 2) + 1 < length pb)%nat).
  { pose proof (Nat.Div0.mul_div_le j 2). lia. }
  assert (Hpbbytes : bytes pb)
    by (unfold pb, bytes; apply Forall_drop; exact Hbytes).
  destruct (lookup_lt_is_Some_2 pb (2 * (j / 2)) ltac:(lia)) as [c0 Hc0].
  destruct (lookup_lt_is_Some_2 pb (2 * (j / 2) + 1) ltac:(lia)) as [c1 Hc1].
  pose proof (bytes_lookup _ _ _ Hpbbytes Hc0) as Hr0.
  pose proof (bytes_lookup _ _ _ Hpbbytes Hc1) as Hr1.
  set (m := (j / 2)%nat) in *.
  assert (Hold : shorts pb !! m = Some (host_short c0 c1)).
  { pose proof (shorts_insert pb (2 * m) c0 ltac:(
      replace (2 * m / 2)%nat with m
        by (rewrite Nat.mul_comm, Nat.div_mul; lia); lia)) as E.
    replace (2 * m / 2)%nat with m in E
      by (rewrite Nat.mul_comm, Nat.div_mul; lia).
    rewrite (list_insert_id pb (2 * m) c0 Hc0) in E.
    rewrite (nth_lookup_Z _ _ _ Hc0), (nth_lookup_Z _ _ _ Hc1) in E.
    assert (Hm : (m < length (shorts pb))%nat).
    { rewrite length_shorts.
      assert (m + 1 <= length pb / 2)%nat
        by (apply Nat.div_le_lower_bound; lia).
      lia. }
    rewrite E at 1. apply list_lookup_insert_eq. exact Hm. }
  pose proof (shorts_insert pb j b' Hj2) as Hnew. fold m in Hnew.
  set (w' := host_short (nth (2 * m) (<[j:=b']> pb) 0)
               (nth (2 * m + 1) (<[j:=b']> pb) 0)) in *.
  assert (Hw' : getshort w' <> getshort (host_short c0 c1)).
  { unfold w'.
    pose proof (Nat.div_mod_eq j 2) as Hdm. fold m in Hdm.
    pose proof (Nat.mod_upper_bound j 2 ltac:(lia)) as Hmod.
    rewrite (getshort_host_short c0 c1) by lia.
    destruct (Nat.eq_dec j (2 * m)%nat) as [Ej|Ej].
    - assert (c0 = b) by (rewrite Ej in Hpbj; congruence). subst c0.
      rewrite Ej.
      rewrite (nth_lookup_Z (<[(2 * m)%nat:=b']> pb) (2 * m) b')
        by (apply list_lookup_insert_eq; lia).
      rewrite (nth_lookup_Z (<[(2 * m)%nat:=b']> pb) (2 * m + 1) c1)
        by (rewrite list_lookup_insert_ne by lia; exact Hc1).
      rewrite getshort_host_short by lia. lia.
    - assert (Ej1 : j = (2 * m + 1)%nat) by lia.
      assert (c1 = b) by (rewrite Ej1 in Hpbj; congruence). subst c1.
      rewrite Ej1.
      rewrite (nth_lookup_Z (<[(2 * m + 1)%nat:=b']> pb) (2 * m) c0)
        by (rewrite list_lookup_insert_ne by lia; exact Hc0).
      rewrite (nth_lookup_Z (<[(2 * m + 1)%nat:=b']> pb) (2 * m + 1) b')
        by (apply list_lookup_insert_eq; lia).
      rewrite getshort_host_short by lia. lia. }
  assert (Hslen : (Z.to_nat L < length (shorts pb))%nat).
  { rewrite length_shorts.
    assert (Z.to_nat L + 1 <= length pb / 2)%nat
      by (apply Nat.div_le_lower_bound; lia).
    lia. }
  (* the comparison fails *)
  assert (Hfail :
    (javad_cksum (<[m:=w']> (shorts pb)) (Z.to_nat L)
     =? getshort (short_at (<[m:=w']> (shorts pb)) (Z.to_nat L))) = false).
  { destruct (Nat.eq_dec m (Z.to_nat L)) as [Em|Em].
    - (* the checksum short itself *)
      assert (Hsame : javad_cksum (<[m:=w']> (shorts pb)) (Z.to_nat L)
                      = javad_cksum (shorts pb) (Z.to_nat L)).
      { rewrite (javad_cksum_take (<[m:=w']> (shorts pb)))
          by (rewrite length_insert; lia).
        rewrite (javad_cksum_take (shorts pb)) by lia.
        rewrite take_insert_ge by lia. reflexivity. }
      rewrite Hsame. unfold short_at at 1.
      rewrite (nth_lookup_Z _ (Z.to_nat L) w')
        by (rewrite <- Em; apply list_lookup_insert_eq; lia).
      fold pb in Hpsum. rewrite Hpsum. unfold short_at.
      rewrite (nth_lookup_Z _ (Z.to_nat L) (host_short c0 c1))
        by (rewrite <- Em; exact Hold).
      apply Z.eqb_neq. congruence.
    - (* a payload short *)
      assert (Hmlt : (m < Z.to_nat L)%nat) by lia.
      unfold short_at.
      assert (Hl : <[m:=w']> (shorts pb) !! Z.to_nat L
                   = shorts pb !! Z.to_nat L)
        by (apply list_lookup_insert_ne; lia).
      destruct (lookup_lt_is_Some_2 (shorts pb) (Z.to_nat L) Hslen) as [c Hc].
      rewrite (nth_lookup_Z _ _ c) by (rewrite Hl; exact Hc).
      fold pb in Hpsum. unfold short_at in Hpsum.
      rewrite (nth_lookup_Z _ _ c Hc) in Hpsum. rewrite <- Hpsum.
      rewrite (javad_cksum_take (<[m:=w']> (shorts pb)))
        by (rewrite length_insert; lia).
      rewrite (javad_cksum_take (shorts pb)) by lia.
      rewrite take_insert_lt by lia.
      apply javad_cksum_insert_differs with (w := host_short c0 c1);
        [|exact Hw'].
      rewrite lookup_take. destruct (decide (m < Z.to_nat L)%nat); [|lia].
      exact Hold. }
  unfold javad_recv, recv_checked, sizeof_jheader.
  cbn [ssize sbuf set_sbuf]. fold buf.
  assert (Hsz : (ssize i <? 12) = false) by (apply Z.ltb_ge; lia).
  rewrite Hsz, (Hsp 0%nat) by lia. rewrite Hsync, Z.eqb_refl. cbn [negb].
  change (Z.to_nat (12 / 2 - 1)) with 5%nat.
  change (Z.to_nat 12) with 12%nat.
  rewrite Hck, (Hsp 5%nat), (Hsp 2%nat) by lia.
  rewrite Hhsum, Z.eqb_refl. cbn [negb]. fold L.
  apply Z.gtb_lt in HL. rewrite HL.
  assert (Hall' : (ssize i <? 12 + (L + 1) * 2) = false)
    by (apply Z.ltb_ge; lia).
  rewrite Hall', Hpb, Hnew, Hfail. reflexivity.
Qed.

(** ** javad_recv: looking for the sync short *)

Lemma sync_bytes :
  0 <= JAVAD_SYNC < 2 ^ 16 ->
  0 <= Z.land JAVAD_SYNC 255 < 256
  /\ 0 <= Z.land (Z.shiftr JAVAD_SYNC 8) 255 < 256
  /\ JAVAD_SYNC
     = Z.land JAVAD_SYNC 255 + 256 * Z.land (Z.shiftr JAVAD_SYNC 8) 255.
Proof.
  intros H.
  change 255 with (Z.ones 8). rewrite !Z.land_ones, Z.shiftr_div_pow2 by lia.
  change (2 ^ 8) with 256.
  pose proof (Z.mod_pos_bound JAVAD_SYNC 256 ltac:(lia)).
  pose proof (Z.mod_pos_bound (JAVAD_SYNC / 256) 256 ltac:(lia)).
  pose proof (Z.div_mod JAVAD_SYNC 256 ltac:(lia)).
  assert (JAVAD_SYNC / 256 < 256) by (apply Z.div_lt_upper_bound; lia).
  assert (0 <= JAVAD_SYNC / 256) by (apply Z.div_pos; lia).
  rewrite (Z.mod_small (JAVAD_SYNC / 256) 256) by lia. lia.
Qed.

Lemma sync_scan_fit : forall (fuel : nat) (bp : list Z) (n : Z),
  n <= Z.of_nat (length bp) ->
  snd (sync_scan fuel bp n) <= Z.of_nat (length (fst (sync_scan fuel bp n))).
Proof.
  induction fuel as [|fuel IH]; intros bp n Hn; cbn [sync_scan]; [exact Hn|].
  destruct (Z.geb_spec n 2) as [H2|H2]; [|exact Hn].
  destruct (negb (nth 0 bp 0 =? Z.land JAVAD_SYNC 255)).
  - apply IH. rewrite length_drop. lia.
  - destruct (nth 1 bp 0 =? Z.land (Z.shiftr JAVAD_SYNC 8) 255); [exact Hn|].
    apply IH. rewrite length_drop. lia.
Qed.

Lemma short_at_front (buf : list Z) :
  (2 <= length buf)%nat ->
  short_at (shorts buf) 0 = host_short (nth 0 buf 0) (nth 1 buf 0).
Proof.
  destruct buf as [|b0 [|b1 rest]]; simpl; intros H; try lia. reflexivity.
Qed.

Lemma nth_take_app (n k : nat) (l l' : list Z) :
  (k < n)%nat -> (n <= length l)%nat -> nth k (take n l ++ l') 0 = nth k l 0.
Proof.
  intros Hk Hn.
  destruct (lookup_lt_is_Some_2 l k ltac:(lia)) as [x Hx].
  rewrite (nth_lookup_Z l k x Hx). apply nth_lookup_Z.
  rewrite lookup_app_l by (rewrite length_take; lia).
  rewrite lookup_take. destruct (decide (k < n)%nat); [exact Hx|lia].
Qed.

(** On a big-endian host the search for the sync short never ends in a
    message: [hp->sync] is compared with [JAVAD_SYNC] without
    [getshort], and the two bytes the search stopped at, read as a
    host short, are [JAVAD_SYNC] with its bytes swapped.  So once the
    sync short is not at the front, [javad_recv] returns zero. *)
Theorem javad_recv_resync_big_endian (i : instance) :
  WORDS_BIGENDIAN = true ->
  0 <= JAVAD_SYNC < 2 ^ 16 ->
  Z.land JAVAD_SYNC 255 <> Z.land (Z.shiftr JAVAD_SYNC 8) 255 ->
  ssize i <= Z.of_nat (length (sbuf i)) ->
  getshort (short_at (shorts (sbuf i)) 0) <> JAVAD_SYNC ->
  fst (javad_recv i) = 0.
Proof.
  intros Hbe Hsync Hne Hfit Hfront. unfold javad_recv.
  destruct (ssize i <? sizeof_jheader); [reflexivity|].
  destruct (Z.eqb_spec (getshort (short_at (shorts (sbuf i)) 0)) JAVAD_SYNC)
    as [E|_]; [contradiction|]. cbn [negb].
  pose proof (sync_scan_done (Z.to_nat (ssize i)) (sbuf i) (ssize i)
                ltac:(lia)) as Hdone.
  pose proof (sync_scan_fit (Z.to_nat (ssize i)) (sbuf i) (ssize i) Hfit)
    as Hlen.
  destruct (sync_scan (Z.to_nat (ssize i)) (sbuf i) (ssize i)) as [bp n].
  cbn [fst snd] in Hdone, Hlen.
  unfold sizeof_jheader. cbn [ssize sbuf set_sbuf set_ssize].
  destruct (Z.ltb_spec n 12) as [Hn|Hn]; cbn [orb]; [reflexivity|].
  destruct Hdone as [Hd|[H0 H1]]; [lia|].
  destruct (Z.gtb_spec n 0) as [_|Hn0]; [|lia].
  rewrite short_at_front
    by (rewrite length_app, length_take; lia).
  rewrite !nth_take_app by lia. rewrite H0, H1.
  destruct (sync_bytes Hsync) as (Hlo & Hhi & Heq).
  unfold host_short. rewrite Hbe.
  destruct (Z.eqb_spec
              (Z.land JAVAD_SYNC 255 * 256 + Z.land (Z.shiftr JAVAD_SYNC 8) 255)
              JAVAD_SYNC) as [E|E]; [lia|reflexivity].
Qed.

Lemma sync_scan_skip (m : list Z) : forall (g : list Z) (fuel : nat) (n : Z),
  Forall (fun b => b <> Z.land JAVAD_SYNC 255) g ->
  nth 0 m 0 = Z.land JAVAD_SYNC 255 ->
  nth 1 m 0 = Z.land (Z.shiftr JAVAD_SYNC 8) 255 ->
  Z.of_nat (length g) + 2 <= n ->
  (length g < fuel)%nat ->
  sync_scan fuel (g ++ m) n = (m, n - Z.of_nat (length g)).
Proof.
  induction g as [|x g IH]; intros fuel n Hg H0 H1 Hn Hfuel;
    (destruct fuel as [|fuel]; [simpl in Hfuel; lia|]); cbn [sync_scan].
  - simpl in Hn. destruct (Z.geb_spec n 2); [|lia].
    cbn [app]. rewrite H0, H1, !Z.eqb_refl. cbn [negb].
    f_equal. simpl. lia.
  - cbn [length] in Hn, Hfuel. destruct (Z.geb_spec n 2); [|lia].
    inversion Hg as [|? ? Hx Hg']; subst.
    cbn [app nth]. destruct (Z.eqb_spec x (Z.land JAVAD_SYNC 255));
      [contradiction|]. cbn [negb].
    change (drop 1 (x :: g ++ m)) with (g ++ m).
    rewrite IH by (auto; lia). f_equal. cbn [length]. lia.
Qed.

(** On a little-endian host, bytes in front of a message that are not
    the low byte of the sync short are skipped: the buffered bytes
    from the sync short on are moved to the front, the size is
    lowered by the number of bytes skipped, and the size of the
    message is returned. *)
Theorem javad_recv_resync (i : instance) (g m : list Z) :
  WORDS_BIGENDIAN = false ->
  0 <= JAVAD_SYNC < 2 ^ 16 ->
  sbuf i = g ++ m -> g <> [] -> bytes (g ++ m) ->
  Forall (fun b => b <> Z.land JAVAD_SYNC 255) g ->
  ssize i <= Z.of_nat (length (sbuf i)) ->
  let n := ssize i - Z.of_nat (length g) in
  let i' := set_ssize
              (set_sbuf i (take (Z.to_nat n) m ++ drop (Z.to_nat n) (g ++ m)))
              n in
  message_at_front i' ->
  javad_recv i
  = (sizeof_jheader + (getshort (short_at (shorts (sbuf i')) 2) + 1) * 2, i').
Proof.
  intros Hle Hsync Hbuf Hg Hbytes Hskip Hfit n i' Hmsg.
  pose proof (javad_recv_message i' Hmsg) as Hrecv.
  destruct Hmsg as (_ & Hfront & _ & HL & Hall & _).
  destruct (sync_bytes Hsync) as (Hlo & Hhi & Heq).
  unfold sizeof_jheader in *.
  cbn [i' ssize sbuf set_sbuf set_ssize] in Hfront, HL, Hall.
  rewrite Hbuf, length_app in Hfit.
  assert (Hn : 12 < n) by lia.
  assert (Hnm : (Z.to_nat n <= length m)%nat) by lia.
  apply Forall_app in Hbytes. destruct Hbytes as [Hbg Hbm].
  (* the message starts with the two sync bytes *)
  rewrite short_at_front in Hfront
    by (rewrite length_app, length_take; lia).
  rewrite !nth_take_app in Hfront by lia.
  destruct m as [|m0 [|m1 m']]; try (simpl in Hnm; lia).
  cbn [nth] in Hfront.
  pose proof (bytes_lookup (m0 :: m1 :: m') 0 m0 Hbm eq_refl) as Hm0.
  pose proof (bytes_lookup (m0 :: m1 :: m') 1 m1 Hbm eq_refl) as Hm1.
  rewrite getshort_host_short in Hfront by lia.
  assert (E0 : m0 = Z.land JAVAD_SYNC 255) by lia.
  assert (E1 : m1 = Z.land (Z.shiftr JAVAD_SYNC 8) 255) by lia.
  (* the front of the buffer is not the sync short *)
  assert (Hnot : getshort (short_at (shorts (g ++ m0 :: m1 :: m')) 0)
                 <> JAVAD_SYNC).
  { destruct g as [|x [|y g']]; [congruence| |].
    - inversion Hskip as [|? ? Hx _]; subst x0 l.
      pose proof (bytes_lookup [x] 0 x Hbg eq_refl).
      cbn. rewrite getshort_host_short by lia. lia.
    - inversion Hskip as [|? ? Hx _]; subst x0 l.
      pose proof (bytes_lookup (x :: y :: g') 0 x Hbg eq_refl).
      pose proof (bytes_lookup (x :: y :: g') 1 y Hbg eq_refl).
      cbn. rewrite getshort_host_short by lia. lia. }
  unfold javad_recv in *. unfold sizeof_jheader in *.
  rewrite Hbuf.
  destruct (Z.ltb_spec (ssize i) 12) as [|_]; [lia|].
  destruct (Z.eqb_spec
              (getshort (short_at (shorts (g ++ m0 :: m1 :: m')) 0)) JAVAD_SYNC)
    as [|_]; [contradiction|]. cbn [negb].
  rewrite (sync_scan_skip (m0 :: m1 :: m') g) by (auto; lia).
  fold n. destruct (Z.gtb_spec n 0) as [_|]; [|lia].
  fold i'.
  assert (Hs : ssize i' = n) by reflexivity.
  rewrite Hs in Hrecv.
  destruct (Z.ltb_spec n 12) as [|_]; [lia|]. cbn [orb].
  assert (Hfront' : short_at (shorts (sbuf i')) 0 = JAVAD_SYNC).
  { cbn [i' sbuf set_sbuf set_ssize].
    rewrite short_at_front by (rewrite length_app, length_take; lia).
    rewrite !nth_take_app by lia. cbn [nth].
    unfold host_short. rewrite Hle. lia. }
  rewrite Hfront', Z.eqb_refl. cbn [negb].
  assert (Hg' : getshort (short_at (shorts (sbuf i')) 0) = JAVAD_SYNC).
  { rewrite Hfront'. unfold getshort. rewrite Hle. apply u_short_small. lia. }
  rewrite Hg', Z.eqb_refl in Hrecv. cbn [negb] in Hrecv. exact Hrecv.
Qed.

(** ** javad_receive: deliveries that do not fit, and what a call leaves
    for the next *)

Lemma strlcpy_overrun : forall (dsize : nat) (dst : list Z) (off : nat)
    (src : list Z),
  Forall (fun c => c <> NUL) src ->
  (0 < dsize)%nat ->
  (sizeof_ibuf <= off + Nat.min (length src) (dsize - 1))%nat ->
  strlcpy dst off src dsize = Fault.
Proof.
  assert (Hpoke : forall dst off c, (sizeof_ibuf <= off)%nat ->
             poke dst off c = Fault).
  { intros dst off c H. unfold poke.
    destruct (decide (off < sizeof_ibuf)%nat); [lia|reflexivity]. }
  induction dsize as [|n IH]; intros dst off src Hnul Hpos Hover; [lia|].
  destruct src as [|c src];
    [destruct n; change (poke dst off NUL = Fault); apply Hpoke;
     simpl in Hover; lia|].
  destruct n as [|n];
    [change (poke dst off NUL = Fault); apply Hpoke; simpl in Hover; lia|].
  apply Forall_cons in Hnul as [Hc Hnul].
  apply Z.eqb_neq in Hc.
  change (strlcpy dst off (c :: src) (S (S n)))
    with (if c =? NUL then poke dst off NUL
          else dst' ← poke dst off c; strlcpy dst' (S off) src (S n)).
  rewrite Hc.
  destruct (poke dst off c) as [dst'| |] eqn:E.
  - rewrite res_bind_Ret. apply IH; [exact Hnul|lia|].
    cbn [length] in Hover. lia.
  - reflexivity.
  - pose proof (poke_not_aborted dst off c) as Hna.
    rewrite E in Hna. discriminate.
Qed.

(** [ibuf] holds at most 511 bytes and the NUL after them.  A delivery
    that brings the bytes buffered to 512 or more makes [strlcpy] write
    past the end of [ibuf]: the clamp on [len] allows 513 bytes and the
    NUL. *)
Theorem javad_receive_overrun (i : instance) (p d : list Z) :
  holds p i ->
  Forall (fun c => c <> NUL) d ->
  Z.of_nat (length d) < 2 ^ 31 ->
  (sizeof_ibuf <= length p + length d)%nat ->
  javad_receive i d = Fault.
Proof.
  intros (Hlen & Hss & Htake) Hnul Hd Hover.
  assert (Hp : (length p <= sizeof_ibuf)%nat).
  { rewrite <- Htake, length_take. lia. }
  unfold javad_receive. cbv zeta.
  rewrite clamped_len_value by (unfold sizeof_ibuf in *; lia).
  rewrite Hss, Nat2Z.id.
  set (len := Z.min (Z.of_nat (length d))
                (Z.of_nat sizeof_ibuf + 1 - Z.of_nat (length p))).
  assert (Hlen' : 0 <= len <= 513) by (unfold len, sizeof_ibuf in *; lia).
  rewrite to_int_small, size_t_small by lia.
  rewrite strlcpy_overrun; [reflexivity|exact Hnul|lia|].
  unfold len, sizeof_ibuf in *. lia.
Qed.

Lemma strlcpy_to_nul (d1 d2 d2' : list Z) : forall (dsize : nat)
    (dst : list Z) (off : nat),
  strlcpy dst off (d1 ++ NUL :: d2) dsize
  = strlcpy dst off (d1 ++ NUL :: d2') dsize.
Proof.
  induction d1 as [|c d1 IH]; intros dsize dst off.
  - destruct dsize as [|[|n]]; reflexivity.
  - destruct dsize as [|[|n]]; try reflexivity.
    change (strlcpy dst off ((c :: d1) ++ NUL :: d2) (S (S n)))
      with (if c =? NUL then poke dst off NUL
            else dst' ← poke dst off c;
                 strlcpy dst' (S off) (d1 ++ NUL :: d2) (S n)).
    change (strlcpy dst off ((c :: d1) ++ NUL :: d2') (S (S n)))
      with (if c =? NUL then poke dst off NUL
            else dst' ← poke dst off c;
                 strlcpy dst' (S off) (d1 ++ NUL :: d2') (S n)).
    destruct (c =? NUL); [reflexivity|].
    destruct (poke dst off c) as [dst'| |]; try reflexivity.
    rewrite !res_bind_Ret. apply IH.
Qed.

(** A delivery is copied as a C string but counted by its length: the
    bytes after its first NUL are never read, only their number
    matters.  In their place the buffer keeps what it held. *)
Theorem javad_receive_after_nul (i : instance) (d1 d2 d2' : list Z) :
  length d2 = length d2' ->
  javad_receive i (d1 ++ NUL :: d2) = javad_receive i (d1 ++ NUL :: d2').
Proof.
  intros Hlen. unfold javad_receive, clamped_len. cbv zeta.
  rewrite !length_app. cbn [length]. rewrite <- Hlen.
  now rewrite (strlcpy_to_nul d1 d2 d2').
Qed.

(** One message a call: of two complete lines that arrive in one
    delivery only the first is printed; the second stays in the buffer
    and is printed by the next call, whatever that delivers (an empty
    delivery will do). *)
Theorem javad_receive_one_per_call (i : instance) (l1 l2 d : list Z) :
  length (ibuf i) = sizeof_ibuf -> ssize i = 0 ->
  Forall (fun c => c <> NUL) (l1 ++ l2 ++ d) ->
  find_crlf l1 = Some (length l1) ->
  find_crlf l2 = Some (length l2) ->
  (2 * length l1 + length l2 < sizeof_ibuf)%nat ->
  (2 * length l2 + length d < sizeof_ibuf)%nat ->
  printed (javad_receive_all i [l1 ++ l2]) = Some [l1]
  /\ printed (javad_receive_all i [l1 ++ l2; d]) = Some [l1; l2].
Proof.
  intros Hlen Hss Hnul H1 H2 Hfit1 Hfit2.
  apply Forall_app in Hnul as [Hn1 Hnul].
  apply Forall_app in Hnul as [Hn2 Hnd].
  assert (Hi : holds [] i) by (unfold holds; simpl; auto).
  pose proof (find_crlf_bounds _ _ H1) as Hb1.
  pose proof (find_crlf_bounds _ _ H2) as Hb2.
  pose proof (javad_receive_step [] i (l1 ++ l2) Hi) as Hstep.
  cbn [app] in Hstep.
  rewrite (find_crlf_app_Some l1 l2 _ H1), length_app in Hstep.
  destruct Hstep as (i1 & E1 & Hi1);
    [apply Forall_app; auto|lia|lia|].
  rewrite take_app_length in E1. rewrite drop_app_length in Hi1.
  pose proof (javad_receive_step l2 i1 d Hi1 Hnd) as Hstep.
  rewrite (find_crlf_app_Some l2 d _ H2), length_app in Hstep.
  destruct Hstep as (i2 & E2 & Hi2); [lia|lia|].
  rewrite take_app_length in E2.
  cbn [javad_receive_all]. rewrite E1, !res_bind_Ret. cbn [fst snd].
  rewrite E2, !res_bind_Ret. split; reflexivity.
Qed.

(** ** javad_parse_t: keeping time *)

(** One pulse a second after the last: the time advances by one second,
    into the next week when the week is over. *)
Lemma javad_parse_t_tick (i : instance) (jp : jpulse) :
  on_time i -> timecode i + 1 < 2 ^ 32 ->
  pulse_sweek jp = (lastsweek i + 1) mod WEEKSECS ->
  let o := javad_parse_t i jp in
  timecode (out_instance o) = timecode i + 1
  /\ on_time (out_instance o)
  /\ lastsweek (out_instance o) = (lastsweek i + 1) mod WEEKSECS
  /\ jumps o = [].
Proof.
  intros (Hgw & Hls & Htc) Hfit Hs o.
  assert (HE : 0 < GPS_EPOCH) by (unfold GPS_EPOCH; lia).
  assert (HW : WEEKSECS = 604800) by reflexivity.
  assert (E : exists gw dbg,
             pulse_gweek i (pulse_sweek jp) = Some (gw, dbg)
             /\ gw * WEEKSECS + pulse_sweek jp
                = gweek i * WEEKSECS + lastsweek i + 1
             /\ 0 < gw /\ 0 <= pulse_sweek jp < WEEKSECS).
  { unfold pulse_gweek. destruct (Z.eqb_spec (gweek i) 0) as [|_]; [lia|].
    rewrite Hs.
    destruct (Z.eq_dec (lastsweek i) (WEEKSECS - 1)) as [Hl|Hl].
    - rewrite Hl. replace (WEEKSECS - 1 + 1) with WEEKSECS by lia.
      rewrite Z.mod_same by lia. rewrite !Z.eqb_refl. cbn [andb].
      rewrite u_int_small by nia.
      eexists _, _. split; [reflexivity|]. lia.
    - rewrite Z.mod_small by lia.
      destruct (Z.eqb_spec (lastsweek i) (WEEKSECS - 1)) as [|_]; [lia|].
      rewrite andb_false_r.
      eexists _, _. split; [reflexivity|]. lia. }
  destruct E as (gw & dbg & E & Hsum & Hgw' & Hs').
  destruct (javad_parse_t_processed i jp gw dbg E)
    as (Hg & Hl & Ht & _ & _ & Hj).
  fold o in Hg, Hl, Ht, Hj.
  assert (Ht' : timecode (out_instance o) = timecode i + 1).
  { rewrite Ht, Htc. rewrite (u_int_small (gw * WEEKSECS)) by nia.
    rewrite u_int_small by lia. lia. }
  split; [exact Ht'|]. split; [|split].
  - unfold on_time. rewrite Hg, Hl, Ht', Htc. lia.
  - rewrite Hl. exact Hs.
  - rewrite Hj. unfold pulse_warp.
    destruct (Z.eqb_spec (lastsweek i) (pulse_sweek jp)) as [Heq|_].
    + exfalso. rewrite Hs in Heq.
      destruct (Z.eq_dec (lastsweek i) (WEEKSECS - 1)) as [Hl'|Hl'].
      * rewrite Hl' in Heq.
        replace (WEEKSECS - 1 + 1) with WEEKSECS in Heq by lia.
        rewrite Z.mod_same in Heq by lia. lia.
      * rewrite Z.mod_small in Heq by lia. lia.
    + destruct (Z.eq_dec (lastsweek i) (WEEKSECS - 1)) as [Hl'|Hl'].
      * rewrite Hs, Hl'.
        replace (WEEKSECS - 1 + 1) with WEEKSECS by lia.
        rewrite Z.mod_same by lia. rewrite !Z.eqb_refl. cbn [andb negb].
        rewrite !andb_false_r. reflexivity.
      * rewrite Hs, Z.mod_small by lia.
        rewrite (u_int_small (lastsweek i + 1)) by lia.
        rewrite Z.eqb_refl. cbn [negb]. rewrite andb_false_r. reflexivity.
Qed.

(** Pulses that follow one another second by second advance the time
    by one second each, through the end of a week and into the next:
    after [k + 1] of them the time is [k + 1] seconds on, and no jump
    is logged. *)
Theorem javad_parse_t_run (jps : list jpulse) : forall (i : instance),
  on_time i ->
  timecode i + Z.of_nat (length jps) < 2 ^ 32 ->
  (forall (k : nat) (jp : jpulse), jps !! k = Some jp ->
     pulse_sweek jp = (lastsweek i + 1 + Z.of_nat k) mod WEEKSECS) ->
  forall (k : nat) (o : outcome),
    javad_parse_t_all i jps !! k = Some o ->
    timecode (out_instance o) = timecode i + Z.of_nat k + 1
    /\ jumps o = [].
Proof.
  induction jps as [|jp jps IH]; intros i Hi Hfit Hsec k o Hk;
    [discriminate|].
  cbn [length] in Hfit. cbn [javad_parse_t_all] in Hk.
  assert (Hs0 : pulse_sweek jp = (lastsweek i + 1) mod WEEKSECS).
  { rewrite (Hsec 0%nat jp eq_refl). f_equal. lia. }
  destruct (javad_parse_t_tick i jp Hi ltac:(lia) Hs0)
    as (Ht & Hi' & Hl & Hj).
  destruct k as [|k].
  - injection Hk as <-. split; [lia|exact Hj].
  - cbn [lookup list_lookup] in Hk.
    destruct (IH (out_instance (javad_parse_t i jp)) Hi' ltac:(lia)) with
      (k := k) (o := o) as [Ht' Hj']; [|exact Hk|].
    + intros k' jp' Hk'. rewrite (Hsec (S k') jp' Hk'), Hl.
      assert (HW : WEEKSECS = 604800) by reflexivity.
      replace ((lastsweek i + 1) mod WEEKSECS + 1 + Z.of_nat k')
        with ((lastsweek i + 1) mod WEEKSECS + (1 + Z.of_nat k')) by lia.
      rewrite Zplus_mod_idemp_l. f_equal. lia.
    + split; [lia|exact Hj'].
Qed.

(** A pulse with the seconds of the last one (no new pulse): the week
    and the time stay as they are, and "gps sweek not incrementing" is
    logged instead of a jump. *)
Theorem javad_parse_t_stall (i : instance) (jp : jpulse) :
  on_time i -> timecode i < 2 ^ 32 ->
  pulse_sweek jp = lastsweek i ->
  let o := javad_parse_t i jp in
  gweek (out_instance o) = gweek i
  /\ timecode (out_instance o) = timecode i
  /\ lastsweek (out_instance o) = lastsweek i
  /\ In (DbgSweekNotIncrementing (lastsweek i)) (out_debug o)
  /\ jumps o = [].
Proof.
  intros (Hgw & Hls & Htc) Hfit Hs o.
  assert (HE : 0 < GPS_EPOCH) by (unfold GPS_EPOCH; lia).
  assert (HW : WEEKSECS = 604800) by reflexivity.
  assert (E : pulse_gweek i (pulse_sweek jp) = Some (gweek i, [])).
  { unfold pulse_gweek. destruct (Z.eqb_spec (gweek i) 0) as [|_]; [lia|].
    rewrite Hs.
    destruct (Z.eqb_spec (lastsweek i) 0) as [H0|_]; [|reflexivity].
    destruct (Z.eqb_spec (lastsweek i) (WEEKSECS - 1)) as [|_]; [lia|].
    reflexivity. }
  destruct (javad_parse_t_processed i jp _ _ E)
    as (Hg & Hl & Ht & _ & _ & Hj).
  fold o in Hg, Hl, Ht, Hj.
  assert (Hw : pulse_warp i (pulse_sweek jp)
               = [DbgSweekNotIncrementing (lastsweek i)]).
  { unfold pulse_warp. now rewrite Hs, Z.eqb_refl. }
  repeat split.
  - exact Hg.
  - rewrite Ht, Htc, Hs. rewrite (u_int_small (gweek i * WEEKSECS)) by nia.
    apply u_int_small. lia.
  - now rewrite Hl.
  - unfold o, javad_parse_t. rewrite E, Hw.
    repeat match goal with
           | |- context [if Z.land ?a ?b =? 0 then _ else _] =>
               destruct (Z.land a b =? 0)
           end; cbn [out_debug app]; left; reflexivity.
  - rewrite Hj, Hw. reflexivity.
Qed.

(** ** javad_parse_gpos, then javad_parse_t *)

(** What a position message with a valid solution leaves as the
    anchor. *)
Lemma javad_parse_gpos_anchor (i : instance) (jg : jgpos) :
  jg_navval jg = 0 -> 0 <= jg_gweek jg < 2 ^ 16 ->
  let i' := out_instance (javad_parse_gpos i jg) in
  gpos_gweek i' = jg_gweek jg + gpos_seconds jg / WEEKSECS
  /\ gpos_sweek i' = gpos_seconds jg mod WEEKSECS
  /\ gweek i' = 0.
Proof.
  intros Hnav Hgw. unfold gpos_seconds.
  pose proof (getshort_range (jg_sweek0 jg)) as H0.
  pose proof (getshort_range (jg_sweek1 jg)) as H1.
  set (seconds := getshort (jg_sweek1 jg) * 2 ^ 16 + getshort (jg_sweek0 jg)).
  assert (Hs : 0 <= seconds < 2 ^ 32) by (unfold seconds; lia).
  assert (Hq : 0 <= seconds / WEEKSECS < 7102).
  { split; [apply Z.div_pos; unfold WEEKSECS; lia|].
    apply Z.div_lt_upper_bound; unfold WEEKSECS; lia. }
  unfold javad_parse_gpos. rewrite Hnav. simpl negb. cbv iota.
  rewrite DS2UI_u_int. fold seconds.
  rewrite (u_int_small (jg_gweek jg)) by lia.
  rewrite gpos_fold_div_mod
    by (unfold gpos_fold_bound; rewrite ?Z2Nat.id; lia).
  simpl. auto.
Qed.

(** A position message with a valid solution, then a pulse: the time
    the pulse leaves is the instant with the pulse's seconds into the
    week that lies nearest the time of the position message, at most
    half a week from it, in the week before or after if need be. *)
Theorem javad_parse_gpos_then_t (i : instance) (jg : jgpos) (jp : jpulse) :
  jg_navval jg = 0 ->
  0 < jg_gweek jg < 2 ^ 16 ->
  getshort (jp_sweek1 jp) < 2 ^ 15 ->
  let T := GPS_EPOCH + jg_gweek jg * WEEKSECS + gpos_seconds jg in
  T + WEEKSECS < 2 ^ 32 ->
  let o := javad_parse_t (out_instance (javad_parse_gpos i jg)) jp in
  let t := timecode (out_instance o) in
  (t - GPS_EPOCH) mod WEEKSECS = pulse_seconds jp mod WEEKSECS
  /\ - (WEEKSECS / 2) <= t - T <= WEEKSECS / 2.
Proof.
  intros Hnav Hgw Hlow T Hfit o t.
  destruct (javad_parse_gpos_anchor i jg Hnav ltac:(lia)) as (Hag & Has & Hg0).
  set (i' := out_instance (javad_parse_gpos i jg)) in *.
  assert (HW : WEEKSECS = 604800) by reflexivity.
  assert (HE : GPS_EPOCH = 315964800) by reflexivity.
  pose proof (getshort_range (jg_sweek0 jg)) as H0.
  pose proof (getshort_range (jg_sweek1 jg)) as H1.
  assert (HS : 0 <= gpos_seconds jg) by (unfold gpos_seconds; lia).
  pose proof (Z.div_mod (gpos_seconds jg) WEEKSECS ltac:(lia)) as Hdm.
  pose proof (Z.mod_pos_bound (gpos_seconds jg) WEEKSECS ltac:(lia)) as Hmb.
  assert (Hq : 0 <= gpos_seconds jg / WEEKSECS) by (apply Z.div_pos; lia).
  assert (HT : T = GPS_EPOCH + gpos_gweek i' * WEEKSECS + gpos_sweek i').
  { unfold T. rewrite Hag, Has. lia. }
  pose proof (pulse_sweek_low jp Hlow) as Hs.
  pose proof (Z.mod_pos_bound (pulse_seconds jp) WEEKSECS ltac:(lia)) as Hsb.
  set (s := pulse_seconds jp mod WEEKSECS) in *.
  assert (Hp : gpos_gweek i' <> 0) by lia.
  pose proof (pulse_gweek_anchor i' (pulse_sweek jp) Hg0 Hp ltac:(lia)
                ltac:(lia)) as E.
  destruct (javad_parse_t_processed i' jp _ _ E) as (_ & _ & Ht & _).
  fold o in Ht. fold t in Ht. rewrite Hs in Ht.
  rewrite !Z.geb_leb, !Z.gtb_ltb in Ht.
  assert (Hval : exists gw, t = GPS_EPOCH + gw * WEEKSECS + s
                            /\ - (WEEKSECS / 2) <= t - T <= WEEKSECS / 2
                            /\ 0 <= gw).
  { replace (WEEKSECS / 2) with 302400 in * by (rewrite HW; reflexivity).
    destruct (Z.leb_spec s (gpos_sweek i')) as [Hle|Hgt]; cbn [andb] in Ht.
    - destruct (Z.ltb_spec 302400 (gpos_sweek i' - s)) as [Hfar|Hnear].
      + exists (gpos_gweek i' + 1).
        rewrite (u_int_small (gpos_gweek i' + 1)) in Ht by nia.
        rewrite (u_int_small ((gpos_gweek i' + 1) * WEEKSECS)) in Ht by nia.
        rewrite u_int_small in Ht by nia. lia.
      + destruct (Z.ltb_spec (gpos_sweek i') s) as [|_]; [lia|].
        cbn [andb] in Ht. exists (gpos_gweek i').
        rewrite (u_int_small (gpos_gweek i' * WEEKSECS)) in Ht by nia.
        rewrite u_int_small in Ht by nia. lia.
    - destruct (Z.ltb_spec (gpos_sweek i') s) as [_|]; [|lia].
      cbn [andb] in Ht.
      destruct (Z.ltb_spec 302400 (s - gpos_sweek i')) as [Hfar|Hnear].
      + exists (gpos_gweek i' - 1).
        rewrite (u_int_small (gpos_gweek i' - 1)) in Ht by nia.
        rewrite (u_int_small ((gpos_gweek i' - 1) * WEEKSECS)) in Ht by nia.
        rewrite u_int_small in Ht by nia. lia.
      + exists (gpos_gweek i').
        rewrite (u_int_small (gpos_gweek i' * WEEKSECS)) in Ht by nia.
        rewrite u_int_small in Ht by nia. lia. }
  destruct Hval as (gw & Hteq & Hnear & Hgw0).
  split; [|exact Hnear].
  replace (t - GPS_EPOCH) with (s + gw * WEEKSECS) by lia.
  rewrite Z.mod_add by lia. apply Z.mod_small. lia.
Qed.

(** ** javad_ppsapi, then javad_pps *)

Lemma land_edge_absorb (c e e' : Z) :
  Z.land (Z.land c e) (Z.lor e e') = Z.land c e
  /\ Z.land (Z.land c e) (Z.lor e' e) = Z.land c e.
Proof.
  split; apply Z.bits_inj'; intros n _;
    rewrite ?Z.land_spec, ?Z.lor_spec, ?Z.land_spec;
    destruct (Z.testbit c n), (Z.testbit e n), (Z.testbit e' n); reflexivity.
Qed.

Lemma land_lor_nonzero (m t e : Z) :
  Z.land m e = m -> m <> 0 -> Z.land (Z.lor m t) e <> 0.
Proof.
  intros Hm Hnz H. apply Hnz.
  rewrite Z.land_lor_distr_l, Hm in H.
  apply Z.lor_eq_0_iff in H. exact (proj1 H).
Qed.

Lemma land_land_same (c e : Z) : Z.land (Z.land c e) e = Z.land c e.
Proof. now rewrite <- Z.land_assoc, Z.land_diag. Qed.

(** What a successful [javad_ppsapi] leaves: the mode has the bit of
    the edge asked for. *)
Lemma javad_ppsapi_mode (i : instance) (assert hardpps : Z) (os : pps_api) :
  fst (fst (javad_ppsapi i assert hardpps os)) = 1 ->
  let i' := snd (fst (javad_ppsapi i assert hardpps os)) in
  let m := if assert =? 0
           then Z.land (snd (time_pps_getcap os)) PPS_CAPTURECLEAR
           else Z.land (snd (time_pps_getcap os)) PPS_CAPTUREASSERT in
  i' = set_pps i (pps_handle i) (Z.lor m PPS_TSFMT_TSPEC)
  /\ m <> 0
  /\ snd (javad_ppsapi i assert hardpps os) = negb (hardpps =? 0).
Proof.
  unfold javad_ppsapi. cbv zeta.
  destruct (fst (time_pps_getcap os) <? 0); [simpl; lia|].
  cbn [pps_mode pps_handle set_pps].
  set (m := if assert =? 0
            then Z.land (snd (time_pps_getcap os)) PPS_CAPTURECLEAR
            else Z.land (snd (time_pps_getcap os)) PPS_CAPTUREASSERT).
  assert (Hm : Z.land m (Z.lor PPS_CAPTUREASSERT PPS_CAPTURECLEAR) = m).
  { unfold m. destruct (assert =? 0); apply land_edge_absorb. }
  rewrite Hm.
  destruct (Z.eqb_spec m 0) as [|Hnz]; [simpl; lia|].
  destruct (time_pps_setparams os _ <? 0); [simpl; lia|].
  destruct (hardpps =? 0); cbn [negb].
  - intros _. cbn [fst snd]. auto.
  - destruct (time_pps_kcbind os _ <? 0); [simpl; lia|].
    intros _. cbn [fst snd]. auto.
Qed.

(** The edge [javad_ppsapi] is asked for is the edge [javad_pps] takes
    its timestamps from.  After a successful [javad_ppsapi], a fetch
    that brings a new sequence number and a new timestamp on that edge
    hands that timestamp to the daemon, whatever the other edge shows;
    the capture bits and the format bit being distinct bits. *)
Theorem javad_ppsapi_then_pps (i : instance) (assert hardpps : Z)
    (os : pps_api) (rc : Z) (info : pps_info_t) :
  Z.land PPS_CAPTURECLEAR PPS_CAPTUREASSERT = 0 ->
  Z.land PPS_TSFMT_TSPEC PPS_CAPTUREASSERT = 0 ->
  fst (fst (javad_ppsapi i assert hardpps os)) = 1 ->
  pps_handle i <> 0 -> 0 <= rc ->
  let i' := snd (fst (javad_ppsapi i assert hardpps os)) in
  let seq := if assert =? 0 then clear_sequence else assert_sequence in
  let stamp := if assert =? 0 then clear_timestamp else assert_timestamp in
  seq info <> seq (pps_info i) ->
  stamp info <> ts i ->
  fst (javad_pps i' (rc, info)) = 0
  /\ lastrec (snd (javad_pps i' (rc, info)))
     = {| l_ui := u_int (u_int (tv_sec (stamp info)) + JAN_1970);
          l_uf := u_int (nsec_to_frac (tv_nsec (stamp info))) |}
  /\ ts (snd (javad_pps i' (rc, info))) = stamp info.
Proof.
  intros Hca Hta Hok Hh Hrc i' seq stamp Hseq Hstamp.
  destruct (javad_ppsapi_mode i assert hardpps os Hok) as (Hi' & Hm & _).
  fold i' in Hi'. unfold seq, stamp in *. clear seq stamp.
  unfold javad_pps. rewrite Hi'. cbn [pps_handle pps_mode pps_info set_pps
                                       set_pps_info fst snd].
  destruct (Z.eqb_spec (pps_handle i) 0) as [|_]; [contradiction|].
  destruct (Z.ltb_spec rc 0) as [|_]; [lia|].
  destruct (Z.eqb_spec assert 0) as [Ha|Ha].
  - (* the clear edge *)
    set (m := Z.land (snd (time_pps_getcap os)) PPS_CAPTURECLEAR) in *.
    assert (HmA : Z.land (Z.lor m PPS_TSFMT_TSPEC) PPS_CAPTUREASSERT = 0).
    { rewrite Z.land_lor_distr_l, Hta. unfold m.
      rewrite <- Z.land_assoc, Hca, Z.land_0_r. reflexivity. }
    assert (HmC : Z.land (Z.lor m PPS_TSFMT_TSPEC) PPS_CAPTURECLEAR <> 0).
    { apply land_lor_nonzero; [apply land_land_same|exact Hm]. }
    rewrite HmA. cbn [Z.eqb negb].
    destruct (Z.eqb_spec (Z.land (Z.lor m PPS_TSFMT_TSPEC) PPS_CAPTURECLEAR) 0)
      as [|_]; [contradiction|]. cbn [negb].
    destruct (Z.eqb_spec (clear_sequence (pps_info i)) (clear_sequence info))
      as [E|_]; [congruence|].
    rewrite pps_emit_new by (cbn; congruence). cbn. auto.
  - (* the assert edge *)
    set (m := Z.land (snd (time_pps_getcap os)) PPS_CAPTUREASSERT) in *.
    assert (HmA : Z.land (Z.lor m PPS_TSFMT_TSPEC) PPS_CAPTUREASSERT <> 0).
    { apply land_lor_nonzero; [apply land_land_same|exact Hm]. }
    destruct (Z.eqb_spec (Z.land (Z.lor m PPS_TSFMT_TSPEC) PPS_CAPTUREASSERT) 0)
      as [|_]; [contradiction|]. cbn [negb].
    destruct (Z.eqb_spec (assert_sequence (pps_info i)) (assert_sequence info))
      as [E|_]; [congruence|].
    rewrite pps_emit_new by (cbn; congruence). cbn. auto.
Qed.

Lemma javad_pps_mode (i : instance) (f : Z * pps_info_t) :
  pps_mode (snd (javad_pps i f)) = pps_mode i.
Proof.
  unfold javad_pps, pps_emit.
  repeat match goal with
         | |- context [if ?b then _ else _] => destruct b
         end; reflexivity.
Qed.

Lemma javad_pps_all_no_edge (fetches : list (Z * pps_info_t)) :
  forall i : instance, pps_mode i = 0 -> javad_pps_all i fetches = [].
Proof.
  induction fetches as [|f fetches IH]; intros i Hm; [reflexivity|].
  cbn [javad_pps_all].
  rewrite IH by (rewrite javad_pps_mode; exact Hm).
  rewrite app_nil_r.
  assert (H1 : fst (javad_pps i f) = 1).
  { unfold javad_pps. cbn [pps_mode set_pps_info]. rewrite Hm.
    rewrite !Z.land_0_l. cbn [Z.eqb negb].
    destruct (pps_handle i =? 0); [reflexivity|].
    destruct (fst f <? 0); reflexivity. }
  rewrite H1. reflexivity.
Qed.

(** When the capability lacks the edge asked for, [javad_ppsapi] fails
    with the mode cleared, and from then on no poll hands a timestamp
    to the daemon. *)
Theorem javad_ppsapi_invalid_edge (i : instance) (assert hardpps : Z)
    (os : pps_api) (fetches : list (Z * pps_info_t)) :
  0 <= fst (time_pps_getcap os) ->
  Z.land (snd (time_pps_getcap os))
    (if assert =? 0 then PPS_CAPTURECLEAR else PPS_CAPTUREASSERT) = 0 ->
  let r := javad_ppsapi i assert hardpps os in
  fst (fst r) = 0
  /\ pps_mode (snd (fst r)) = 0
  /\ snd r = false
  /\ javad_pps_all (snd (fst r)) fetches = [].
Proof.
  intros Hrc Hcap.
  assert (E : javad_ppsapi i assert hardpps os
              = (0, set_pps i (pps_handle i) 0, false)).
  { unfold javad_ppsapi. cbv zeta.
    destruct (Z.ltb_spec (fst (time_pps_getcap os)) 0) as [|_]; [lia|].
    cbn [pps_mode pps_handle set_pps].
    destruct (assert =? 0); rewrite Hcap; reflexivity. }
  cbv zeta. rewrite E. cbn [fst snd pps_mode set_pps].
  repeat split. apply javad_pps_all_no_edge. reflexivity.
Qed.

(** ** getshort, putshort and DS2UI: round trips *)

(** A short written with [putshort] is read back by [getshort], and the
    other way round, on either kind of host. *)
Theorem getshort_putshort_round_trip (s : Z) :
  0 <= s < 2 ^ 16 ->
  getshort (putshort s) = s /\ putshort (getshort s) = s.
Proof.
  intros Hs. split; [now apply getshort_putshort|].
  unfold getshort, putshort. destruct WORDS_BIGENDIAN.
  - now apply swap_bytes_involutive.
  - rewrite (u_short_small s Hs). exact (u_short_small s Hs).
Qed.

(** A 32-bit value stored as two shorts, low short first, is read back
    by [DS2UI] once the result is an [unsigned int]; [DS2UI] itself
    yields an [int], the value below 2^31 and the value less 2^32 from
    there on. *)
Theorem DS2UI_round_trip (s : Z) :
  0 <= s < 2 ^ 32 ->
  let p0 := putshort (s mod 2 ^ 16) in
  let p1 := putshort (s / 2 ^ 16) in
  u_int (DS2UI p0 p1) = s
  /\ (s < 2 ^ 31 -> DS2UI p0 p1 = s)
  /\ (2 ^ 31 <= s -> DS2UI p0 p1 = s - 2 ^ 32).
Proof.
  intros Hs p0 p1.
  pose proof (Z.mod_pos_bound s (2 ^ 16) ltac:(lia)) as Hlo.
  pose proof (Z.div_mod s (2 ^ 16) ltac:(lia)) as Hdm.
  assert (Hhi : 0 <= s / 2 ^ 16 < 2 ^ 16).
  { split; [apply Z.div_pos; lia|apply Z.div_lt_upper_bound; lia]. }
  assert (E0 : getshort p0 = s mod 2 ^ 16) by (apply getshort_putshort; lia).
  assert (E1 : getshort p1 = s / 2 ^ 16) by (apply getshort_putshort; lia).
  split; [rewrite DS2UI_u_int, E0, E1; lia|]. split.
  - intros Hlow. rewrite DS2UI_low by (rewrite E1; lia).
    rewrite E0, E1. lia.
  - intros Hhigh. unfold DS2UI. rewrite E0, E1, Z.shiftl_mul_pow2 by lia.
    assert (E : to_int (s / 2 ^ 16 * 2 ^ 16) = (s / 2 ^ 16 - 2 ^ 16) * 2 ^ 16).
    { unfold to_int.
      replace (s / 2 ^ 16 * 2 ^ 16 + 2 ^ 31)
        with (s / 2 ^ 16 * 2 ^ 16 - 2 ^ 31 + 1 * 2 ^ 32) by lia.
      rewrite Z.mod_add, Z.mod_small by lia. lia. }
    rewrite E, lor_mul_pow2_16 by lia. lia.
Qed.

End Javad.

(** * The functions on concrete inputs *)

(** ** javad_cksum *)

Example javad_cksum_header :
  javad_cksum le_host [sync_short; 0; 1; 0; 0] 5 = 32256
  /\ javad_cksum le_host [sync_short; 0; 1; 0; 0; 32256] 6 = 0.
Proof. split; reflexivity. Qed.

(** On a big-endian host the checksum word has to be stored with
    [putshort] for the sum to close. *)
Example javad_cksum_big_endian :
  javad_cksum true [1; 2; 3] 3 = 64000
  /\ javad_cksum true [1; 2; 3; putshort true 64000] 4 = 0
  /\ javad_cksum true [1; 2; 3; 64000] 4 = 63750.
Proof. repeat split; reflexivity. Qed.

(** ** javad_pps *)

(** A new assert edge, fetched twice, is emitted once. *)
Lemma javad_pps_dedup_witness :
  javad_pps_all pps_assert_bit pps_clear_bit jan_1970 exact_frac
    (set_pps fresh 1 pps_assert_bit)
    [(0, edge 1 1700000000 500000000); (0, edge 1 1700000000 500000000)]
  = [ {| l_ui := 3908988800; l_uf := 2147483648 |} ].
Proof.
  destruct (javad_pps_dedup pps_assert_bit pps_clear_bit jan_1970 exact_frac
              (set_pps fresh 1 pps_assert_bit) 0
              (edge 1 1700000000 500000000)) as (_ & _ & H).
  apply H; simpl; try lia; discriminate.
Defined.

(** Before the first edge the API reports sequence 0, which is the
    sequence of the zeroed instance: nothing is emitted. *)
Example javad_pps_no_edge_yet :
  javad_pps_all pps_assert_bit pps_clear_bit jan_1970 exact_frac
    (set_pps fresh 1 pps_assert_bit) [(0, edge 0 0 0); (0, edge 0 0 0)] = [].
Proof. reflexivity. Qed.

(** ** javad_parse_t *)

(** An anchor ten seconds before the end of week 2190 and a pulse five
    seconds into a week: the pulse is in week 2191. *)
Lemma javad_parse_t_anchor_week_witness :
  gweek (out_instance
           (javad_parse_t le_host pulse_valid_bit pulse_utc_bit
              (set_gpos fresh 2190 (WEEKSECS - 10)) (pulse 5 3)))
  = u_int (2190 + 1).
Proof.
  assert (H1 : gweek (set_gpos fresh 2190 (WEEKSECS - 10)) = 0)
    by reflexivity.
  assert (H2 : gpos_gweek (set_gpos fresh 2190 (WEEKSECS - 10)) <> 0)
    by (simpl; lia).
  assert (H3 : 0 <= gpos_sweek (set_gpos fresh 2190 (WEEKSECS - 10)) < 2 ^ 32)
    by (simpl; unfold WEEKSECS; lia).
  assert (H4 : getshort le_host (jp_sweek1 (pulse 5 3)) < 2 ^ 15)
    by (vm_compute; reflexivity).
  destruct (javad_parse_t_anchor_week le_host pulse_valid_bit pulse_utc_bit
              (set_gpos fresh 2190 (WEEKSECS - 10)) (pulse 5 3) H1 H2 H3 H4)
    as (_ & _ & H).
  apply H; reflexivity.
Defined.

(** C1, where the code leaves it.  [DS2UI] yields an [int]; for a pulse
    whose seconds field has its top bit set the remainder by [WEEKSECS]
    is taken of a negative number, and [sweek] is not the seconds
    modulo [WEEKSECS].  With seconds 2^31, which is 443648 modulo
    [WEEKSECS], and the anchor at 443648 in week 2190, the pulse and
    the anchor are zero seconds apart, yet the code steps back to
    week 2189. *)
Lemma javad_parse_t_high_seconds :
  pulse_seconds le_host (pulse (2 ^ 31) 3) = 2 ^ 31
  /\ 2 ^ 31 mod WEEKSECS = 443648
  /\ pulse_sweek le_host (pulse (2 ^ 31) 3) = 4294523648
  /\ gweek (out_instance
              (javad_parse_t le_host pulse_valid_bit pulse_utc_bit
                 (set_gpos fresh 2190 443648) (pulse (2 ^ 31) 3)))
     = 2189.
Proof. repeat split; reflexivity. Qed.

(** A pulse marked not valid, with week 2190 known and no time stored:
    it is rejected with a bad-time event and its time is stored. *)
Lemma javad_parse_t_bad_time_witness :
  let o := javad_parse_t le_host pulse_valid_bit pulse_utc_bit
             (set_gweek fresh 2190) (pulse 10 0) in
  out_report o = [CEVNT_BADTIME]
  /\ (out_ret o = Some "time mark not valid"%string
      \/ out_ret o = Some "time mark not sync'ed to UTC"%string)
  /\ lastsweek (out_instance o) = pulse_sweek le_host (pulse 10 0)
  /\ timecode (out_instance o)
     = u_int (GPS_EPOCH + u_int (gweek (out_instance o) * WEEKSECS)
              + pulse_sweek le_host (pulse 10 0)).
Proof.
  apply (javad_parse_t_bad_time le_host pulse_valid_bit pulse_utc_bit
           (set_gweek fresh 2190) (pulse 10 0)).
  - left. reflexivity.
  - left. simpl. lia.
Defined.

(** C3 fails as stated: the rejected pulse above changes [timecode]
    from 0 to the time of second 10 of week 2190; and a pulse marked
    not valid that finds no week and no anchor is dropped before the
    flags are looked at, with no bad-time event. *)
Lemma javad_parse_t_bad_time_counterexample :
  (out_report (javad_parse_t le_host pulse_valid_bit pulse_utc_bit
                 (set_gweek fresh 2190) (pulse 10 0)) = [CEVNT_BADTIME]
   /\ timecode (set_gweek fresh 2190) = 0
   /\ timecode (out_instance
                  (javad_parse_t le_host pulse_valid_bit pulse_utc_bit
                     (set_gweek fresh 2190) (pulse 10 0))) = 1640476810)
  /\ (out_report (javad_parse_t le_host pulse_valid_bit pulse_utc_bit
                    fresh (pulse 10 0)) = []
      /\ out_ret (javad_parse_t le_host pulse_valid_bit pulse_utc_bit
                    fresh (pulse 10 0))
         = Some "javad_parse_t: Unknown gweek"%string).
Proof. repeat split; reflexivity. Qed.

(** ** javad_parse_gpos *)

Lemma javad_parse_gpos_invalid_witness :
  javad_parse_gpos le_host (set_gweek (set_gpos fresh 2190 30) 2190)
    {| jg_navval := 1; jg_gweek := 2190; jg_sweek0 := 30; jg_sweek1 := 0 |}
  = {| out_instance := set_gpos (set_gweek (set_gpos fresh 2190 30) 2190) 0 0;
       out_debug := []; out_report := [];
       out_ret := Some "Navigation solution not valid"%string |}.
Proof.
  apply (javad_parse_gpos_invalid le_host
           (set_gweek (set_gpos fresh 2190 30) 2190)
           {| jg_navval := 1; jg_gweek := 2190; jg_sweek0 := 30;
              jg_sweek1 := 0 |}).
  simpl. lia.
Defined.

(** C4 fails as stated: with week 2190 known, a position message whose
    solution is not valid clears the anchor and leaves [gweek] at
    2190, not at 0 (unknown). *)
Lemma javad_parse_gpos_invalid_counterexample :
  gweek (set_gweek (set_gpos fresh 2190 30) 2190) = 2190
  /\ gweek (out_instance
              (javad_parse_gpos le_host (set_gweek (set_gpos fresh 2190 30) 2190)
                 {| jg_navval := 1; jg_gweek := 2190; jg_sweek0 := 30;
                    jg_sweek1 := 0 |}))
     = 2190
  /\ gpos_gweek (out_instance
              (javad_parse_gpos le_host (set_gweek (set_gpos fresh 2190 30) 2190)
                 {| jg_navval := 1; jg_gweek := 2190; jg_sweek0 := 30;
                    jg_sweek1 := 0 |}))
     = 0.
Proof. repeat split; reflexivity. Qed.

Lemma javad_parse_gpos_valid_witness :
  let o := javad_parse_gpos le_host fresh
             {| jg_navval := 0; jg_gweek := 2190;
                jg_sweek0 := (WEEKSECS + 30) mod 2 ^ 16;
                jg_sweek1 := (WEEKSECS + 30) / 2 ^ 16 |} in
  gpos_gweek (out_instance o) = 2190 + 1
  /\ gpos_sweek (out_instance o) = 30
  /\ 0 <= gpos_sweek (out_instance o) < WEEKSECS
  /\ gweek (out_instance o) = 0
  /\ out_ret o = None.
Proof.
  apply (javad_parse_gpos_valid le_host fresh
           {| jg_navval := 0; jg_gweek := 2190;
              jg_sweek0 := (WEEKSECS + 30) mod 2 ^ 16;
              jg_sweek1 := (WEEKSECS + 30) / 2 ^ 16 |}).
  - reflexivity.
  - simpl. lia.
Defined.

(** A valid position message 30 seconds past the end of week 2190
    anchors week 2191, second 30, and the pulses 31, 32, 33 that follow
    give the times of those seconds, with no jump logged. *)
Example javad_parse_gpos_normalises :
  let o := javad_parse_gpos le_host fresh
             {| jg_navval := 0; jg_gweek := 2190;
                jg_sweek0 := (WEEKSECS + 30) mod 2 ^ 16;
                jg_sweek1 := (WEEKSECS + 30) / 2 ^ 16 |} in
  gpos_gweek (out_instance o) = 2191
  /\ gpos_sweek (out_instance o) = 30
  /\ gweek (out_instance o) = 0
  /\ (fun r => (timecode (out_instance r), jumps r)) <$>
       javad_parse_t_all le_host pulse_valid_bit pulse_utc_bit (out_instance o)
         [pulse 31 3; pulse 32 3; pulse 33 3]
     = [ (GPS_EPOCH + 2191 * WEEKSECS + 31, []);
         (GPS_EPOCH + 2191 * WEEKSECS + 32, []);
         (GPS_EPOCH + 2191 * WEEKSECS + 33, []) ].
Proof. repeat split; reflexivity. Qed.

(** ** Warp detection *)

(** After [javad_config] and a position message, with no pulse seen
    yet, the pulses 10, 11, 50 log one jump, at 50. *)
Lemma javad_parse_t_warp_witness :
  jumps <$> javad_parse_t_all le_host pulse_valid_bit pulse_utc_bit
              (out_instance
                 (javad_parse_gpos le_host fresh
                    {| jg_navval := 0; jg_gweek := 2190;
                       jg_sweek0 := 30; jg_sweek1 := 0 |}))
              [pulse 10 3; pulse 11 3; pulse 50 3]
  = [[]; []; [DbgSweekJumped 11 50]].
Proof.
  destruct (javad_parse_t_warp le_host pulse_valid_bit pulse_utc_bit
              (out_instance
                 (javad_parse_gpos le_host fresh
                    {| jg_navval := 0; jg_gweek := 2190;
                       jg_sweek0 := 30; jg_sweek1 := 0 |})))
    as (_ & H & _).
  apply (H (pulse 10 3) (pulse 11 3) (pulse 50 3)); try reflexivity.
  - vm_compute. split; [discriminate|reflexivity].
  - right. vm_compute. discriminate.
Defined.

(** C9 fails as stated: right after [javad_config], with no position
    message seen, the pulses 10, 11, 50 are dropped one by one before
    the warp test and log no jump at all; and after [javad_config], a
    position message and the pulse 5, they log two jumps, from 5 to 10
    and from 11 to 50. *)
Lemma javad_parse_t_warp_counterexample :
  (jumps <$> javad_parse_t_all le_host pulse_valid_bit pulse_utc_bit
               fresh [pulse 10 3; pulse 11 3; pulse 50 3]
   = [[]; []; []]
   /\ out_ret <$> javad_parse_t_all le_host pulse_valid_bit pulse_utc_bit
                    fresh [pulse 10 3; pulse 11 3; pulse 50 3]
      = [Some "javad_parse_t: Unknown gweek"%string;
         Some "javad_parse_t: Unknown gweek"%string;
         Some "javad_parse_t: Unknown gweek"%string])
  /\ jumps <$> javad_parse_t_all le_host pulse_valid_bit pulse_utc_bit
                 (out_instance
                    (javad_parse_t le_host pulse_valid_bit pulse_utc_bit
                       (out_instance
                          (javad_parse_gpos le_host fresh
                             {| jg_navval := 0; jg_gweek := 2190;
                                jg_sweek0 := 30; jg_sweek1 := 0 |}))
                       (pulse 5 3)))
                 [pulse 10 3; pulse 11 3; pulse 50 3]
     = [[DbgSweekJumped 5 10]; []; [DbgSweekJumped 11 50]].
Proof. repeat split; reflexivity. Qed.

(** ** javad_recv *)

(** A message with [len = 1]: one payload short, 7, and its checksum
    65529; sixteen bytes in all. *)
Lemma javad_recv_payload_witness :
  javad_recv le_host sync_short (message 1 32256 [7; 65529])
  = (16, message 1 32256 [7; 65529]).
Proof.
  pose proof (javad_recv_payload le_host sync_short
                (message 1 32256 [7; 65529])) as H.
  cbv zeta in H. rewrite H.
  - reflexivity.
  - vm_compute. discriminate.
  - reflexivity.
  - reflexivity.
  - reflexivity.
  - vm_compute. discriminate.
Defined.

(** C6 fails as stated.  With [len = 1], the message of sixteen bytes
    (payload 7, checksum 65529) followed by a short 5 is accepted,
    though the checksum over two shorts, 7 and 65529, is 0 and the
    short after them is 5; and the message with two payload shorts 7
    and 9 followed by their checksum 65520 is refused and the buffer
    emptied, since the checksum over the one short 7 is not 9. *)
Lemma javad_recv_payload_counterexample :
  (fst (javad_recv le_host sync_short (message 1 32256 [7; 65529; 5])) = 16
   /\ javad_cksum le_host [7; 65529] 2 = 0
   /\ short_at [7; 65529; 5] 2 = 5)
  /\ (javad_recv le_host sync_short (message 1 32256 [7; 9; 65520])
      = (0, set_ssize (message 1 32256 [7; 9; 65520]) 0)
      /\ javad_cksum le_host [7; 9] 2 = 65520
      /\ short_at [7; 9; 65520] 2 = 65520).
Proof. repeat split; reflexivity. Qed.

(** ** javad_receive *)

(** A line and the start of the next, delivered as one byte, nothing,
    and the rest. *)
Lemma javad_receive_chunking_witness :
  printed (javad_receive_all fresh [[97]; []; [13; 10; 98]])
  = printed (javad_receive_all fresh [[97; 13; 10; 98]])
  /\ printed (javad_receive_all fresh [[97]; [13]; [10]; [98]])
     = printed (javad_receive_all fresh [[97; 13; 10; 98]])
  /\ printed (javad_receive_all fresh [[97; 13; 10; 98]])
     = Some [[97; 13; 10]].
Proof.
  apply (javad_receive_chunking [97; 13; 10; 98] [[97]; []; [13; 10; 98]] fresh).
  - reflexivity.
  - reflexivity.
  - reflexivity.
  - repeat constructor; discriminate.
  - intros e H. vm_compute in H. injection H as <-. reflexivity.
  - vm_compute. lia.
Defined.

(** C5 fails as stated: two lines delivered one byte at a time are
    both printed; delivered in one piece, only the first is, the second
    stays in the buffer.  A byte sequence with a NUL in it differs
    too: in one piece the copy stops at the NUL. *)
Lemma javad_receive_chunking_counterexample :
  (printed (javad_receive_all fresh
              [[97]; [13]; [10]; [98]; [13]; [10]])
   = Some [[97; 13; 10]; [98; 13; 10]]
   /\ printed (javad_receive_all fresh [[97; 13; 10; 98; 13; 10]])
      = Some [[97; 13; 10]])
  /\ (printed (javad_receive_all fresh [[97]; [0]; [13]; [10]])
      = Some [[97; 0; 13; 10]]
      /\ printed (javad_receive_all fresh [[97; 0; 13; 10]]) = Some []).
Proof. repeat split; reflexivity. Qed.

(** "ab" delivered to the fresh instance, then a delivery of 601
    bytes that does not fit: "ab" stays, [ssize] ends at the clamp. *)
Example javad_receive_ab :
  javad_receive fresh [97; 98] = Ret (buffered_ab, None)
  /\ javad_receive buffered_ab (0 :: replicate 600 122) = Ret (clamped_ab, None).
Proof. split; vm_compute; reflexivity. Qed.

(** "ab" buffered and a delivery of 600 bytes without NUL, which does
    not fit: every store is at index 2 or above, and what is stored
    is the start of the delivery. *)
Lemma javad_receive_overflow_witness :
  fst <$> append_stores buffered_ab (replicate 600 122)
  = seq 2 (length (append_stores buffered_ab (replicate 600 122)))
  /\ clamped_len buffered_ab (replicate 600 122)
     <= Z.of_nat (length (replicate 600 122)).
Proof.
  destruct (javad_receive_overflow buffered_ab (replicate 600 122))
    as (_ & H1 & _ & H2 & _).
  - reflexivity.
  - vm_compute. split; discriminate.
  - vm_compute. reflexivity.
  - split; [exact H1|exact H2].
Defined.

(** C7 fails as stated.  A delivery that does not fit is cut, not the
    buffer: after "ab" and a delivery of 601 bytes, "ab" is still at
    the front and [ssize] is 513, one more than [ibuf] has bytes; the
    next delivery is written past the end of [ibuf].  So is the last
    byte of 512 bytes without a terminator, and so is the end of 600
    bytes without NUL delivered after "ab". *)
Lemma javad_receive_overflow_counterexample :
  (javad_receive_all fresh [[97; 98]; 0 :: replicate 600 122]
   = Ret (clamped_ab, [])
   /\ ssize clamped_ab = 513
   /\ take 2 (ibuf clamped_ab) = [97; 98]
   /\ is_fault (javad_receive clamped_ab [100]) = true)
  /\ is_fault (javad_receive fresh (replicate 512 97)) = true
  /\ is_fault (javad_receive buffered_ab (replicate 600 122)) = true.
Proof. repeat split; vm_compute; reflexivity. Qed.

(** * The further properties on concrete inputs *)

(** ** javad_cksum *)

(** The short 2 replaced by 5. *)
Lemma javad_cksum_detects_short_witness :
  (javad_cksum le_host (<[1%nat:=5]> [1; 2; 3]) 3
     =? javad_cksum le_host [1; 2; 3] 3) = false.
Proof.
  apply (javad_cksum_detects_short le_host [1; 2; 3] 1 2 5).
  - reflexivity.
  - vm_compute. discriminate.
Defined.

Lemma javad_cksum_Permutation_witness :
  javad_cksum le_host [1; 2; 3] 3 = javad_cksum le_host [3; 1; 2] 3.
Proof.
  apply (javad_cksum_Permutation le_host [1; 2; 3] [3; 1; 2]).
  exact (Permutation_app_comm [1; 2] [3]).
Defined.

(** ** javad_recv *)

(** The message of sixteen bytes lies within the bytes buffered. *)
Lemma javad_recv_sound_witness :
  fst (javad_recv le_host sync_short (message 1 32256 [7; 65529]))
  <= ssize (snd (javad_recv le_host sync_short (message 1 32256 [7; 65529])))
  <= ssize (message 1 32256 [7; 65529]).
Proof.
  assert (H : 0 < fst (javad_recv le_host sync_short
                         (message 1 32256 [7; 65529])))
    by (vm_compute; reflexivity).
  destruct (javad_recv_sound le_host sync_short
              (message 1 32256 [7; 65529]) H) as (_ & _ & _ & _ & Hle).
  exact Hle.
Defined.

(** The low byte of the payload short 7 changed to 8. *)
Lemma javad_recv_corrupt_payload_witness :
  javad_recv le_host sync_short
    (set_sbuf (message 1 32256 [7; 65529])
       (<[12%nat:=8]> (sbuf (message 1 32256 [7; 65529]))))
  = (0, set_ssize
          (set_sbuf (message 1 32256 [7; 65529])
             (<[12%nat:=8]> (sbuf (message 1 32256 [7; 65529])))) 0).
Proof.
  assert (H1 : message_at_front le_host sync_short
                 (message 1 32256 [7; 65529]))
    by (repeat split; vm_compute; congruence).
  assert (H2 : bytes (sbuf (message 1 32256 [7; 65529])))
    by (vm_compute; repeat constructor; discriminate).
  apply (javad_recv_corrupt_payload le_host sync_short
           (message 1 32256 [7; 65529]) 12 7 8 H1 H2).
  - vm_compute. split; [discriminate|reflexivity].
  - reflexivity.
  - lia.
  - lia.
Defined.

(** A zero byte, then the message: on a big-endian host it is not
    found. *)
Lemma javad_recv_resync_big_endian_witness :
  fst (javad_recv true sync_short
         (buffered (0 :: sbuf (message 1 32256 [7; 65529])))) = 0.
Proof.
  apply (javad_recv_resync_big_endian true sync_short
           (buffered (0 :: sbuf (message 1 32256 [7; 65529])))).
  - reflexivity.
  - vm_compute. split; [discriminate|reflexivity].
  - vm_compute. discriminate.
  - vm_compute. discriminate.
  - vm_compute. discriminate.
Defined.

(** A zero byte, then the message: on a little-endian host the message
    is moved to the front; the last byte of the buffer stays where it
    was. *)
Lemma javad_recv_resync_witness :
  javad_recv le_host sync_short
    (buffered ([0] ++ sbuf (message 1 32256 [7; 65529])))
  = (16, set_ssize
           (set_sbuf fresh (sbuf (message 1 32256 [7; 65529]) ++ [255])) 16).
Proof.
  assert (H : message_at_front le_host sync_short
                (set_ssize
                   (set_sbuf
                      (buffered ([0] ++ sbuf (message 1 32256 [7; 65529])))
                      (take 16 (sbuf (message 1 32256 [7; 65529]))
                       ++ drop 16 ([0] ++ sbuf (message 1 32256 [7; 65529]))))
                   16))
    by (repeat split; vm_compute; congruence).
  apply (javad_recv_resync le_host sync_short
           (buffered ([0] ++ sbuf (message 1 32256 [7; 65529])))
           [0] (sbuf (message 1 32256 [7; 65529]))).
  - reflexivity.
  - vm_compute. split; [discriminate|reflexivity].
  - reflexivity.
  - discriminate.
  - vm_compute. repeat constructor; discriminate.
  - vm_compute. repeat constructor. discriminate.
  - vm_compute. discriminate.
  - exact H.
Defined.

(** ** javad_receive *)

(** 512 bytes delivered to the empty buffer. *)
Lemma javad_receive_overrun_witness :
  javad_receive fresh (replicate 512 97) = Fault.
Proof.
  apply (javad_receive_overrun fresh [] (replicate 512 97)).
  - repeat split.
  - apply Forall_replicate. discriminate.
  - rewrite length_replicate. reflexivity.
  - rewrite length_replicate. apply Nat.le_refl.
Defined.

(** A line after a NUL is not seen. *)
Lemma javad_receive_after_nul_witness :
  javad_receive fresh ([97] ++ NUL :: [98; 13; 10])
  = javad_receive fresh ([97] ++ NUL :: [0; 0; 0]).
Proof.
  apply (javad_receive_after_nul fresh [97] [98; 13; 10] [0; 0; 0]).
  reflexivity.
Defined.

(** Two lines in one delivery, then an empty delivery. *)
Lemma javad_receive_one_per_call_witness :
  printed (javad_receive_all fresh [[97; 13; 10] ++ [98; 13; 10]])
  = Some [[97; 13; 10]]
  /\ printed (javad_receive_all fresh [[97; 13; 10] ++ [98; 13; 10]; []])
     = Some [[97; 13; 10]; [98; 13; 10]].
Proof.
  apply (javad_receive_one_per_call fresh [97; 13; 10] [98; 13; 10] []).
  - reflexivity.
  - reflexivity.
  - repeat constructor; discriminate.
  - reflexivity.
  - reflexivity.
  - vm_compute. lia.
  - vm_compute. lia.
Defined.

(** ** javad_parse_t *)

(** Three pulses from the last second but one of week 2190: the third
    is second 1 of week 2191, three seconds on. *)
Lemma javad_parse_t_run_witness :
  (fun o => timecode (out_instance o)) <$>
    (javad_parse_t_all le_host pulse_valid_bit pulse_utc_bit
       (at_second 2190 (WEEKSECS - 2))
       [pulse (WEEKSECS - 1) 3; pulse 0 3; pulse 1 3] !! 2%nat)
  = Some (GPS_EPOCH + 2191 * WEEKSECS + 1).
Proof.
  destruct (javad_parse_t_all le_host pulse_valid_bit pulse_utc_bit
              (at_second 2190 (WEEKSECS - 2))
              [pulse (WEEKSECS - 1) 3; pulse 0 3; pulse 1 3] !! 2%nat)
    as [o|] eqn:E; [|vm_compute in E; discriminate].
  assert (H1 : on_time (at_second 2190 (WEEKSECS - 2)))
    by (repeat split; vm_compute; congruence).
  assert (H2 : timecode (at_second 2190 (WEEKSECS - 2))
               + Z.of_nat (length [pulse (WEEKSECS - 1) 3; pulse 0 3;
                                   pulse 1 3]) < 2 ^ 32)
    by (vm_compute; reflexivity).
  assert (H3 : forall (k : nat) (jp : jpulse),
             [pulse (WEEKSECS - 1) 3; pulse 0 3; pulse 1 3] !! k = Some jp ->
             pulse_sweek le_host jp
             = (lastsweek (at_second 2190 (WEEKSECS - 2)) + 1 + Z.of_nat k)
               mod WEEKSECS).
  { intros [|[|[|k]]] jp Hk; try discriminate;
      injection Hk as <-; vm_compute; reflexivity. }
  destruct (javad_parse_t_run le_host pulse_valid_bit pulse_utc_bit
              [pulse (WEEKSECS - 1) 3; pulse 0 3; pulse 1 3]
              (at_second 2190 (WEEKSECS - 2)) H1 H2 H3 2%nat o E) as [H _].
  cbn [fmap option_fmap option_map]. rewrite H. reflexivity.
Defined.

(** Second 10 of week 2190 reported twice. *)
Lemma javad_parse_t_stall_witness :
  timecode (out_instance
              (javad_parse_t le_host pulse_valid_bit pulse_utc_bit
                 (at_second 2190 10) (pulse 10 3)))
  = timecode (at_second 2190 10).
Proof.
  assert (H1 : on_time (at_second 2190 10))
    by (repeat split; vm_compute; congruence).
  assert (H2 : timecode (at_second 2190 10) < 2 ^ 32)
    by (vm_compute; reflexivity).
  assert (H3 : pulse_sweek le_host (pulse 10 3) = lastsweek (at_second 2190 10))
    by reflexivity.
  destruct (javad_parse_t_stall le_host pulse_valid_bit pulse_utc_bit
              (at_second 2190 10) (pulse 10 3) H1 H2 H3) as (_ & H & _).
  exact H.
Defined.

(** A position ten seconds before the end of week 2190, then a pulse
    five seconds into a week: the time is fifteen seconds after the
    position's. *)
Lemma javad_parse_gpos_then_t_witness :
  - (WEEKSECS / 2)
  <= timecode
       (out_instance
          (javad_parse_t le_host pulse_valid_bit pulse_utc_bit
             (out_instance
                (javad_parse_gpos le_host fresh
                   {| jg_navval := 0; jg_gweek := 2190;
                      jg_sweek0 := 14966; jg_sweek1 := 9 |}))
             (pulse 5 3)))
     - (GPS_EPOCH + 2190 * WEEKSECS
        + gpos_seconds le_host
            {| jg_navval := 0; jg_gweek := 2190;
               jg_sweek0 := 14966; jg_sweek1 := 9 |})
  <= WEEKSECS / 2.
Proof.
  assert (H : GPS_EPOCH + 2190 * WEEKSECS
              + gpos_seconds le_host
                  {| jg_navval := 0; jg_gweek := 2190;
                     jg_sweek0 := 14966; jg_sweek1 := 9 |}
              + WEEKSECS < 2 ^ 32)
    by (vm_compute; reflexivity).
  destruct (javad_parse_gpos_then_t le_host pulse_valid_bit pulse_utc_bit
              fresh
              {| jg_navval := 0; jg_gweek := 2190;
                 jg_sweek0 := 14966; jg_sweek1 := 9 |}
              (pulse 5 3) eq_refl ltac:(simpl; lia)
              ltac:(vm_compute; reflexivity) H) as [_ Hnear].
  exact Hnear.
Defined.

(** ** javad_ppsapi *)

(** The clear edge asked for and captured: a new clear edge is handed
    on. *)
Lemma javad_ppsapi_then_pps_witness :
  fst (javad_pps pps_assert_bit pps_clear_bit jan_1970 exact_frac
         (snd (fst (javad_ppsapi pps_assert_bit pps_clear_bit pps_tsfmt_bit
                      (set_pps fresh 1 0) 0 0 (pps_api_ok 3))))
         (0, clear_edge 1 1700000000 500000000)) = 0
  /\ lastrec
       (snd (javad_pps pps_assert_bit pps_clear_bit jan_1970 exact_frac
               (snd (fst (javad_ppsapi pps_assert_bit pps_clear_bit
                            pps_tsfmt_bit (set_pps fresh 1 0) 0 0
                            (pps_api_ok 3))))
               (0, clear_edge 1 1700000000 500000000)))
     = {| l_ui := 3908988800; l_uf := 2147483648 |}.
Proof.
  destruct (javad_ppsapi_then_pps pps_assert_bit pps_clear_bit jan_1970
              exact_frac pps_tsfmt_bit (set_pps fresh 1 0) 0 0 (pps_api_ok 3)
              0 (clear_edge 1 1700000000 500000000))
    as (H1 & H2 & _); try reflexivity; try discriminate.
  split; [exact H1|exact H2].
Defined.

(** The clear edge asked for of an API that captures the assert edge
    only. *)
Lemma javad_ppsapi_invalid_edge_witness :
  fst (fst (javad_ppsapi pps_assert_bit pps_clear_bit pps_tsfmt_bit
              (set_pps fresh 1 pps_assert_bit) 0 0 (pps_api_ok 1))) = 0
  /\ javad_pps_all pps_assert_bit pps_clear_bit jan_1970 exact_frac
       (snd (fst (javad_ppsapi pps_assert_bit pps_clear_bit pps_tsfmt_bit
                    (set_pps fresh 1 pps_assert_bit) 0 0 (pps_api_ok 1))))
       [(0, clear_edge 1 1700000000 500000000);
        (0, edge 1 1700000000 500000000)] = [].
Proof.
  destruct (javad_ppsapi_invalid_edge pps_assert_bit pps_clear_bit jan_1970
              exact_frac pps_tsfmt_bit (set_pps fresh 1 pps_assert_bit) 0 0
              (pps_api_ok 1)
              [(0, clear_edge 1 1700000000 500000000);
               (0, edge 1 1700000000 500000000)])
    as (H1 & _ & _ & H2); [discriminate|reflexivity|].
  split; [exact H1|exact H2].
Defined.

(** ** getshort, putshort and DS2UI *)

(** The sync short on a big-endian host. *)
Lemma getshort_putshort_round_trip_witness :
  getshort true (putshort true sync_short) = sync_short
  /\ putshort true (getshort true sync_short) = sync_short.
Proof.
  apply (getshort_putshort_round_trip true sync_short).
  split; [discriminate|reflexivity].
Defined.

(** The seconds 2^31 + 5. *)
Lemma DS2UI_round_trip_witness :
  u_int (DS2UI le_host (putshort le_host ((2 ^ 31 + 5) mod 2 ^ 16))
           (putshort le_host ((2 ^ 31 + 5) / 2 ^ 16))) = 2 ^ 31 + 5
  /\ DS2UI le_host (putshort le_host ((2 ^ 31 + 5) mod 2 ^ 16))
       (putshort le_host ((2 ^ 31 + 5) / 2 ^ 16)) = 2 ^ 31 + 5 - 2 ^ 32.
Proof.
  destruct (DS2UI_round_trip le_host (2 ^ 31 + 5)) as (H1 & _ & H2).
  - split; [discriminate|reflexivity].
  - split; [exact H1|]. apply H2. discriminate.
Defined.
